(** * Translation of a pyproject configuration document into a distribution

    A shallow embedding of [setuptools/config/_apply_pyprojecttoml.py]:
    Python values are trees, dictionaries keep their insertion order,
    exceptions are a result type, and the objects that the pass shares with
    its caller (the document, the working directory, the log) live in an
    explicit world that survives an exception. *)

From stdpp Require Import gmap strings list fin_maps.
From Stdlib Require Import Ascii String ZArith Bool.

Open Scope string_scope.
Open Scope list_scope.

(** ** Python strings *)

Module PyStr.

Fixpoint map_chars (f : ascii → ascii) (s : string) : string :=
  match s with
  | EmptyString => EmptyString
  | String c s' => String (f c) (map_chars f s')
  end.

(** [str.lower] on the ASCII letters; other bytes are left alone. *)
Definition lower_char (c : ascii) : ascii :=
  let n := nat_of_ascii c in
  if (65 <=? n)%nat && (n <=? 90)%nat then ascii_of_nat (n + 32) else c.

Definition lower (s : string) : string := map_chars lower_char s.

(** [s.replace(a, b)] for one-character [a] and [b]. *)
Definition replace_char (a b : ascii) (s : string) : string :=
  map_chars (λ c, if Ascii.eqb c a then b else c) s.

(** [s.replace(a, "")] for a one-character [a]. *)
Fixpoint remove_char (a : ascii) (s : string) : string :=
  match s with
  | EmptyString => EmptyString
  | String c s' =>
    if Ascii.eqb c a then remove_char a s' else String c (remove_char a s')
  end.

Definition char_in (c : ascii) (chars : list ascii) : bool :=
  existsb (Ascii.eqb c) chars.

Fixpoint lstrip (chars : list ascii) (s : string) : string :=
  match s with
  | EmptyString => EmptyString
  | String c s' => if char_in c chars then lstrip chars s' else s
  end.

Fixpoint rstrip (chars : list ascii) (s : string) : string :=
  match s with
  | EmptyString => EmptyString
  | String c s' =>
    match rstrip chars s' with
    | EmptyString => if char_in c chars then EmptyString else String c EmptyString
    | r => String c r
    end
  end.

(** [s.strip(chars)]: both ends. *)
Definition strip (chars : list ascii) (s : string) : string :=
  lstrip chars (rstrip chars s).

(** [sep.join(parts)]. *)
Fixpoint join (sep : string) (parts : list string) : string :=
  match parts with
  | [] => ""
  | [p] => p
  | p :: ps => p +:+ sep +:+ join sep ps
  end.

(** The one-character strings a [str] yields when iterated. *)
Fixpoint chars (s : string) : list string :=
  match s with
  | EmptyString => []
  | String c s' => String c EmptyString :: chars s'
  end.

End PyStr.

(** ** Python values and exceptions *)

Set Warnings "-register-all".

Inductive value : Type :=
| VNone
| VBool (b : bool)
| VInt (n : Z)
| VStr (s : string)
| VList (xs : list value)
| VTuple (xs : list value)
| VDict (items : list (string * value))
| VSpecifierSet (spec : string)
| VClass (user_options : option (list string)).

(** A dictionary is the list of its items in insertion order. *)
Abbreviation dict := (list (string * value)).

Inductive exn : Type :=
| KeyError (key : string)
| TypeError (what : string)
| AttributeError (what : string)
| OSError (what : string)
| ConfigurationError (what : string)
| OtherError (class_name what : string).

Definition is_configuration_error (e : exn) : bool :=
  match e with ConfigurationError _ => true | _ => false end.

Inductive result (A : Type) : Type :=
| Ok (a : A)
| Raise (e : exn).
Arguments Ok {A} a.
Arguments Raise {A} e.

Definition rbind {A B} (r : result A) (k : A → result B) : result B :=
  match r with Ok a => k a | Raise e => Raise e end.

Declare Scope result_scope.
Delimit Scope result_scope with res.
Notation "'let*' x ':=' r 'in' k" := (rbind r (λ x, k))
  (at level 10, x pattern, r at level 100, k at level 200) : result_scope.

(** Truth value of an object, as [if obj:] computes it. *)
Definition truthy (v : value) : bool :=
  match v with
  | VNone => false
  | VBool b => b
  | VInt n => negb (n =? 0)%Z
  | VStr s => negb (String.eqb s "")
  | VList xs | VTuple xs => negb (bool_decide (xs = []))
  | VDict items => match items with [] => false | _ => true end
  | VSpecifierSet _ | VClass _ => true
  end.

(** ** Dictionaries *)

Module Dict.
Section Ops.
Context {V : Type}.
Implicit Types (d : list (string * V)) (k : string) (v : V).

Fixpoint get k d : option V :=
  match d with
  | [] => None
  | (k', v) :: d' => if String.eqb k k' then Some v else get k d'
  end.

Definition mem k d : bool :=
  match get k d with Some _ => true | None => false end.

Definition keys d : list string := map fst d.

Definition remove k d : list (string * V) :=
  List.filter (λ kv, negb (String.eqb k (fst kv))) d.

(** The value under [k] is replaced where [get] finds it. *)
Fixpoint replace k v d : list (string * V) :=
  match d with
  | [] => []
  | (k', v') :: d' =>
      if String.eqb k k' then (k', v) :: d' else (k', v') :: replace k v d'
  end.

(** [d[k] = v]: an existing key keeps its place, a new key goes last. *)
Definition set k v d : list (string * V) :=
  if mem k d then replace k v d else d ++ [(k, v)].

(** [d.pop(k, default)]: the value found, if any, and what is left. *)
Definition pop k d : option V * list (string * V) :=
  (get k d, remove k d).

(** [d.setdefault(k, v)], for its effect on [d]. *)
Definition setdefault k v d : list (string * V) :=
  if mem k d then d else d ++ [(k, v)].

(** [for k, v in seq: d[k] = v] *)
Definition assign (seq : list (string * V)) d : list (string * V) :=
  fold_left (λ e kv, set (fst kv) (snd kv) e) seq d.
End Ops.
End Dict.

(** ** The distribution object and the collaborators of the pass *)

(** Modelled from the spec: the metadata model ([setuptools.dist.Distribution],
    not among the sources). The spec's three mutation classes: a field with a
    dedicated setter (the setters belong to the class, see [metadata_setter]
    below), a plain attribute (a key of [metadata]), or one of the patch
    fields; anything else lands on the distribution object itself.

    The record is a distribution that still works on the metadata object,
    the command options and the finalize hooks it came with. The last
    branch of [_set_config] can assign a field of one of these names
    ([setattr(dist, field, value)]): the assignment is kept in
    [attributes] like any other, and in Python it replaces what the rest
    of the pass reads. The statements that depend on what is read
    afterwards say that no such assignment has been made ([reserved] and
    [intact], below). *)
Record Distribution : Type := {
  metadata : gmap string value;
  attributes : gmap string value;
  command_options : gmap string (gmap string value);
}.

Definition with_metadata (f : gmap string value → gmap string value)
    (dist : Distribution) : Distribution :=
  {| metadata := f (metadata dist);
     attributes := attributes dist;
     command_options := command_options dist |}.

Definition with_attributes (f : gmap string value → gmap string value)
    (dist : Distribution) : Distribution :=
  {| metadata := metadata dist;
     attributes := f (attributes dist);
     command_options := command_options dist |}.

Definition with_command_options
    (f : gmap string (gmap string value) → gmap string (gmap string value))
    (dist : Distribution) : Distribution :=
  {| metadata := metadata dist;
     attributes := attributes dist;
     command_options := f (command_options dist) |}.

(** An entry point of the group [distutils.commands]: [ep.load()] returns a
    command class or raises (class name and message of the exception). *)
Record EntryPoint : Type := {
  ep_name : string;
  ep_load : value + string * string;
}.

(** What the pass calls and does not define. *)
Record Env : Type := {
  (** [expand.read_files(filepaths, root_dir)] *)
  read_files : value → string → result string;
  (** [str(Address(display_name=name, addr_spec=email))] *)
  Address_str : string → string → result string;
  (** [SpecifierSet(val)] *)
  SpecifierSet : value → result value;
  (** [set_<field>] of the metadata class, when it has one: the method checks
      or converts its argument and stores it in the attribute [field]. *)
  metadata_setter : string → option (value → result value);
  (** [dist._finalize_requires()] and [dist._finalize_license_files()], run
      in some working directory, which they may leave changed. *)
  _finalize_requires : Distribution → string → result Distribution * string;
  _finalize_license_files : Distribution → string → result Distribution * string;
  (** [os.chdir(target)] from a working directory: the new one, or failure. *)
  os_chdir : string → string → option string;
  (** [iter_entry_points('distutils.commands')] *)
  iter_entry_points : list EntryPoint;
  (** the option names of [Distribution.global_options] *)
  global_options : list string;
  (** [repr(obj)], which is [str(obj)] for an object that is not a [str] *)
  repr : value → string;
  (** Iterating the set [{"license", "license_files"}] yields ["license"]
      first (the order depends on the hash seed of the process). *)
  license_iterates_first : bool;
}.

(** ** Key normalisation *)

Definition json_compatible_key (key : string) : string :=
  PyStr.replace_char "-" "_" (PyStr.lower key).

Definition _normalise_cmd_option_key (name : string) : string :=
  PyStr.strip ["_"; "="]%char (json_compatible_key name).

Definition _normalise_cmd_options (desc : list string) : gset string :=
  list_to_set (map _normalise_cmd_option_key desc).

Definition TOOL_TABLE_RENAMES : dict := [("script_files", VStr "scripts")].

Definition SETUPTOOLS_PATCHES : list string :=
  ["long_description_content_type"; "project_urls"; "provides_extras";
   "license_file"; "license_files"].

Definition DEFAULT_LICENSE_FILES : value :=
  VTuple [VStr "LICEN[CS]E*"; VStr "COPYING*"; VStr "NOTICE*"; VStr "AUTHORS*"].

Definition hasattr (obj : gmap string value) (field : string) : bool :=
  bool_decide (is_Some (obj !! field)).

Definition str_in (s : string) (l : list string) : bool :=
  existsb (String.eqb s) l.

(** [", ".join(parts)]: every part has to be a [str]. *)
Fixpoint strs_of (parts : list value) : result (list string) :=
  match parts with
  | [] => Ok []
  | VStr s :: rest => (let* ss := strs_of rest in Ok (s :: ss))%res
  | _ :: _ => Raise (TypeError "sequence item: expected str instance")
  end.

Definition comma_join (parts : list value) : result value :=
  (let* ss := strs_of parts in Ok (VStr (PyStr.join ", " ss)))%res.

(** [d[k]] *)
Definition getitem (k : string) (d : dict) : result value :=
  match Dict.get k d with
  | Some v => Ok v
  | None => Raise (KeyError k)
  end.

(** [for k, v in items: s = step(s, k, v)], stopping at an exception. *)
Fixpoint for_items {S : Type} (step : S → string → value → result S)
    (items : dict) (s : S) : result S :=
  match items with
  | [] => Ok s
  | (k, v) :: rest => (let* s' := step s k v in for_items step rest s')%res
  end.

(** [for x in obj], for the objects a document can hold. *)
Definition iterate (v : value) : result (list value) :=
  match v with
  | VList xs | VTuple xs => Ok xs
  | VStr s => Ok (map VStr (PyStr.chars s))
  | VDict d => Ok (map VStr (Dict.keys d))
  | _ => Raise (TypeError "not iterable")
  end.

(** ** Field translators *)

Section Translators.
Context (env : Env).
Local Open Scope result_scope.

Definition _set_config (dist : Distribution) (field : string) (val : value)
  : result Distribution :=
  match metadata_setter env field with
  | Some setter =>
    let* stored := setter val in
    Ok (with_metadata <[field := stored]> dist)
  | None =>
    if hasattr (metadata dist) field || str_in field SETUPTOOLS_PATCHES
    then Ok (with_metadata <[field := val]> dist)
    else Ok (with_attributes <[field := val]> dist)
  end.

Definition _long_description (dist : Distribution) (val : value)
  (root_dir : string) : result Distribution :=
  let* (text, ctype) :=
  match val with
  | VStr _ =>
      let* text := read_files env val root_dir in
      Ok (VStr text, VStr "text/x-rst")
  | VDict d =>
      let from_file :=
        let* text :=
          read_files env (default (VList []) (Dict.get "file" d)) root_dir in
        Ok (VStr text) in
      let* text := match Dict.get "text" d with
                   | Some t => if truthy t then Ok t else from_file
                   | None => from_file
                   end in
      let* ctype := getitem "content-type" d in
      Ok (text, ctype)
  | _ => Raise (AttributeError "get")
  end in
  let* dist := _set_config dist "long_description" text in
  _set_config dist "long_description_content_type" ctype.

Definition _license (dist : Distribution) (val : value) (_root_dir : string)
  : result Distribution :=
  match val with
  | VStr _ => _set_config dist "license" val
  | VDict d =>
    if Dict.mem "file" d
    then let* file := getitem "file" d in
         _set_config dist "license_files" (VList [file])
    else let* text := getitem "text" d in
         _set_config dist "license" text
  | _ => Raise (TypeError "license table")
  end.

(** One round of the loop of [_people] over its two lists, [field] and
    [email_field]. *)
Definition _people_step (acc : list value * list value) (person : value)
  : result (list value * list value) :=
  let '(field, email_field) := acc in
  match person with
  | VDict p =>
    if negb (Dict.mem "name" p)
    then let* email := getitem "email" p in
         Ok (field, email_field ++ [email])
    else if negb (Dict.mem "email" p)
    then let* name := getitem "name" p in
         Ok (field ++ [name], email_field)
    else
      match Dict.get "name" p, Dict.get "email" p with
      | Some (VStr name), Some (VStr email) =>
          let* addr := Address_str env name email in
          Ok (field, email_field ++ [VStr addr])
      | _, _ => Raise (TypeError "Address")
      end
  | _ => Raise (TypeError "person")
  end.

Fixpoint _people_loop (val : list value) (acc : list value * list value)
  : result (list value * list value) :=
  match val with
  | [] => Ok acc
  | person :: rest =>
    let* acc' := _people_step acc person in
    _people_loop rest acc'
  end.

Definition _people (kind : string) (dist : Distribution) (val : value)
  (_root_dir : string) : result Distribution :=
  let* persons := iterate val in
  let* (field, email_field) := _people_loop persons ([], []) in
  let* dist := if truthy (VList field)
             then let* joined := comma_join field in
                  _set_config dist kind joined
             else Ok dist in
  if truthy (VList email_field)
  then let* joined := comma_join email_field in
     _set_config dist (kind +:+ "_email") joined
  else Ok dist.

Definition special : dict :=
  [("downloadurl", VStr "download_url"); ("homepage", VStr "url")].

(** The attribute an entry of the URL table is written to. *)
Definition url_target (key : string) : string :=
  let norm_key := PyStr.remove_char "_" (json_compatible_key key) in
  match Dict.get norm_key special with
  | Some (VStr target) => target
  | _ => key
  end.

Definition _project_urls (dist : Distribution) (val : value)
  (_root_dir : string) : result Distribution :=
  match val with
  | VDict d =>
    let* dist :=
      for_items (λ dist key url, _set_config dist (url_target key) url) d dist in
    _set_config dist "project_urls" (VDict d)
  | _ => Raise (AttributeError "items")
  end.

Definition _python_requires (dist : Distribution) (val : value)
  (_root_dir : string) : result Distribution :=
  let* spec := SpecifierSet env val in
  _set_config dist "python_requires" spec.

(** An entry of the correspondence table: an attribute name or a function. *)
Inductive correspondence : Type :=
  | Attr (name : string)
  | Translator (fn : Distribution → value → string → result Distribution).

Definition PYPROJECT_CORRESPONDENCE : list (string * correspondence) :=
  [("readme", Translator _long_description);
  ("license", Translator _license);
  ("authors", Translator (_people "author"));
  ("maintainers", Translator (_people "maintainer"));
  ("urls", Translator _project_urls);
  ("dependencies", Attr "install_requires");
  ("optional_dependencies", Attr "extras_require");
  ("requires_python", Translator _python_requires)].

Fixpoint corresp_get (k : string) (table : list (string * correspondence))
  : option correspondence :=
  match table with
  | [] => None
  | (k', c) :: rest => if String.eqb k k' then Some c else corresp_get k rest
  end.

(** One round of the first loop of [apply]. *)
Definition apply_project_field (root_dir : string) (dist : Distribution)
  (field : string) (val : value) : result Distribution :=
  let norm_key := json_compatible_key field in
  match default (Attr norm_key) (corresp_get norm_key PYPROJECT_CORRESPONDENCE) with
  | Translator corresp => corresp dist val root_dir
  | Attr corresp => _set_config dist corresp val
  end.

(** One round of the second loop of [apply]. *)
Definition apply_tool_field (dist : Distribution) (field : string)
  (val : value) : result Distribution :=
  let norm_key := json_compatible_key field in
  let norm_key := match Dict.get norm_key TOOL_TABLE_RENAMES with
                | Some (VStr renamed) => renamed
                | _ => norm_key
                end in
  _set_config dist norm_key val.

End Translators.

(** ** The world of the caller

    The document is the caller's object: [apply] works on a shallow copy of
    its project table and on the tool table itself, so a dictionary taken
    from either is the caller's dictionary, not a fresh one. A reference
    names such an object by its place in the document; writing through the
    reference changes the document. *)

Record World : Type := {
  document : value;
  cwd : string;
  log : list string;
}.

Definition M (A : Type) : Type := World → result A * World.

Definition mret {A} (a : A) : M A := λ w, (Ok a, w).

Definition mbind {A B} (m : M A) (k : A → M B) : M B :=
  λ w, match m w with
       | (Ok a, w') => k a w'
       | (Raise e, w') => (Raise e, w')
       end.

Definition raise {A} (e : exn) : M A := λ w, (Raise e, w).

Definition lift {A} (r : result A) : M A := λ w, (r, w).

Declare Scope world_scope.
Delimit Scope world_scope with world.
Notation "'let!' x ':=' m 'in' k" := (mbind m (λ x, k))
  (at level 10, x pattern, m at level 100, k at level 200) : world_scope.

(** [try: body finally: cleanup] *)
Definition try_finally {A} (body : M A) (cleanup : M unit) : M A :=
  λ w, let '(r, w') := body w in
       match cleanup w' with
       | (Ok _, w'') => (r, w'')
       | (Raise e, w'') => (Raise e, w'')
       end.

(** [log.warn(msg)] *)
Definition warn (msg : string) : M unit :=
  λ w, (Ok (), {| document := document w; cwd := cwd w; log := log w ++ [msg] |}).

Fixpoint doc_get (path : list string) (v : value) : option value :=
  match path with
  | [] => Some v
  | k :: rest =>
      match v with
      | VDict d => match Dict.get k d with
                   | Some v' => doc_get rest v'
                   | None => None
                   end
      | _ => None
      end
  end.

Fixpoint doc_set (path : list string) (new : value) (v : value) : value :=
  match path with
  | [] => new
  | k :: rest =>
      match v with
      | VDict d => match Dict.get k d with
                   | Some v' => VDict (Dict.replace k (doc_set rest new v') d)
                   | None => v
                   end
      | _ => v
      end
  end.

Inductive ref : Type :=
| Local (v : value)            (** an object no one else holds *)
| Shared (path : list string)  (** the caller's object at this place *).

Definition deref (r : ref) : M value :=
  λ w, (Ok match r with
           | Local v => v
           | Shared path => default VNone (doc_get path (document w))
           end, w).

(** The object behind [r] gets new contents. *)
Definition update (r : ref) (v : value) : M ref :=
  match r with
  | Local _ => mret (Local v)
  | Shared path =>
      λ w, (Ok r, {| document := doc_set path v (document w);
                     cwd := cwd w; log := log w |})
  end.

Definition child (r : ref) (k : string) (v : value) : ref :=
  match r with
  | Local _ => Local v
  | Shared path => Shared (path ++ [k])
  end.

Section Objects.
Local Open Scope world_scope.

(** [obj.get(k, default)] *)
Definition ref_get (r : ref) (k : string) (dflt : value) : M ref :=
  let! obj := deref r in
  match obj with
  | VDict d => match Dict.get k d with
             | Some v => mret (child r k v)
             | None => mret (Local dflt)
             end
  | _ => raise (AttributeError "get")
  end.

(** [obj[k] = v] *)
Definition ref_setitem (r : ref) (k : string) (v : value) : M ref :=
  let! obj := deref r in
  match obj with
  | VDict d => update r (VDict (Dict.set k v d))
  | _ => raise (TypeError "item assignment")
  end.

(** [obj.items()]: the keys with the objects they hold. *)
Definition ref_items (r : ref) : M (list (string * ref)) :=
  let! obj := deref r in
  match obj with
  | VDict d => mret (map (λ kv, (fst kv, child r (fst kv) (snd kv))) d)
  | _ => raise (AttributeError "items")
  end.

(** [obj.copy()] of a dictionary: new keys, the same objects. *)
Definition ref_copy (r : ref) : M (list (string * ref)) :=
  let! obj := deref r in
  match obj with
  | VDict d => mret (map (λ kv, (fst kv, child r (fst kv) (snd kv))) d)
  | VList _ => raise (TypeError "pop")
  | _ => raise (AttributeError "copy")
  end.

(** [for k, v in items: s = step(s, k, v)] with the objects behind the
    names read when their round comes. *)
Fixpoint for_refs {S : Type} (step : S → string → value → M S)
  (items : list (string * ref)) (s : S) : M S :=
  match items with
  | [] => mret s
  | (k, r) :: rest =>
    let! v := deref r in
    let! s' := step s k v in
    for_refs step rest s'
  end.

Fixpoint for_each {S X : Type} (step : S → X → M S) (xs : list X) (s : S)
  : M S :=
  match xs with
  | [] => mret s
  | x :: rest => let! s' := step s x in for_each step rest s'
  end.
End Objects.

(** ** The pass *)

Fixpoint normalised_keys (names : list value) : result (list string) :=
  match names with
  | [] => Ok []
  | VStr k :: rest =>
      (let* ks := normalised_keys rest in Ok (json_compatible_key k :: ks))%res
  | _ :: _ => Raise (AttributeError "lower")
  end.

Definition renaming : dict :=
  [("scripts", VStr "console_scripts"); ("gui_scripts", VStr "gui_scripts")].

Section Pass.
Context (env : Env).
Local Open Scope world_scope.

Definition py_str (v : value) : string :=
  match v with VStr s => s | _ => repr env v end.

Definition _dynamic_license (project_table : list (string * ref))
  (tool_table : ref) : M (list (string * ref)) :=
  let dynamic_license :=
  if license_iterates_first env
  then ["license"; "license_files"] else ["license_files"; "license"] in
  let! declared :=
  deref (default (Local (VList [])) (Dict.get "dynamic" project_table)) in
  let! dynamic :=
  lift (let* names := iterate declared in normalised_keys names)%res in
  let! dynamic_cfg := ref_get tool_table "dynamic" (VDict []) in
  let! cfg := deref dynamic_cfg in
  let! dynamic_cfg :=
  match cfg with
  | VDict d =>
      update dynamic_cfg
        (VDict (Dict.setdefault "license_files" DEFAULT_LICENSE_FILES d))
  | _ => raise (AttributeError "setdefault")
  end in
  let! cfg := deref dynamic_cfg in
  let cfg := match cfg with VDict d => d | _ => [] end in
  let keys :=
  if str_in "license" dynamic
  then List.filter (λ k, Dict.mem k cfg) dynamic_license else [] in
  for_each
  (λ project_table key,
     let norm_key := json_compatible_key key in
     let! v := lift (getitem key cfg) in
     mret (Dict.set norm_key (Local v) project_table))
  keys project_table.

(** [[f"{k} = {v}" for k, v in group.items()]] *)
Definition format_group (group : value) : result value :=
  match group with
  | VDict g =>
    Ok (VList (map (λ kv, VStr (fst kv +:+ " = " +:+ py_str (snd kv))) g))
  | _ => Raise (AttributeError "items")
  end.

Fixpoint format_groups (groups : dict) : result dict :=
  match groups with
  | [] => Ok []
  | (name, group) :: rest =>
    (let* lines := format_group group in
     let* others := format_groups rest in
     Ok ((name, lines) :: others))%res
  end.

(** One round of the loop of [_unify_entry_points]. *)
Definition _unify_step (st : ref * list (string * ref)) (key : string)
  (val : value) : M (ref * list (string * ref)) :=
  let '(entry_points, project) := st in
  let norm_key := json_compatible_key key in
  match Dict.get norm_key renaming with
  | Some (VStr renamed) =>
    if truthy val then
      let '(popped, project) := Dict.pop key project in
      match popped with
      | Some r =>
          let! group := deref r in
          let! entry_points := ref_setitem entry_points renamed group in
          mret (entry_points, project)
      | None => raise (KeyError key)
      end
    else mret st
  | _ => mret st
  end.

Definition _unify_entry_points (project : list (string * ref))
  : M (list (string * ref)) :=
  let '(inner, project) := Dict.pop "entry_points" project in
  let '(outer, project) := Dict.pop "entry-points" project in
  let entry_points := default (default (Local (VDict [])) inner) outer in
  let! (entry_points, project) :=
  for_refs _unify_step project (entry_points, project) in
  let! groups := deref entry_points in
  if truthy groups then
  match groups with
  | VDict g =>
      let! formatted := lift (format_groups g) in
      mret (Dict.set "entry-points" (Local (VDict formatted)) project)
  | _ => raise (AttributeError "items")
  end
  else mret project.

Definition _load_ep (ep : EntryPoint) : M (option (string * value)) :=
  match ep_load ep with
  | inl cls => mret (Some (ep_name ep, cls))
  | inr (class_name, ex) =>
    let msg := class_name +:+ " while trying to load entry-point "
               +:+ ep_name ep in
    let! _ := warn (msg +:+ ": " +:+ ex) in
    mret None
  end.

(** [getattr(cmd_class, "user_options", [])], the option names of it. *)
Definition user_options_of (cmd_class : value) : list string :=
  match cmd_class with
  | VClass (Some options) => options
  | _ => []
  end.

Definition add_command (valid_options : gmap string (gset string))
  (cmd : string) (cmd_class : value) : gmap string (gset string) :=
  let opts := default ∅ (valid_options !! cmd) in
  let opts := opts ∪ _normalise_cmd_options (user_options_of cmd_class) in
  <[cmd := opts]> valid_options.

Definition _valid_command_options (cmdclass : value)
  : M (gmap string (gset string)) :=
  let valid_options : gmap string (gset string) :=
  {[ "global" := _normalise_cmd_options (global_options env) ]} in
  let! overrides := match cmdclass with
                  | VDict d => mret d
                  | _ => raise (AttributeError "items")
                  end in
  let! valid_options :=
  for_each (λ valid_options ep,
              let! loaded := _load_ep ep in
              match loaded with
              | Some (cmd, cmd_class) =>
                  mret (add_command valid_options cmd cmd_class)
              | None => mret valid_options
              end)
           (iter_entry_points env) valid_options in
  mret (fold_left (λ acc kv, add_command acc (fst kv) (snd kv))
        overrides valid_options).

(** One round of the inner loop of [_copy_command_options]. *)
Definition _copy_option (cmd : string) (valid : gset string)
  (dist : Distribution) (key : string) (val : value) : M Distribution :=
  let key := json_compatible_key key in
  let dist :=
  with_command_options
    (λ cmd_opts, <[cmd := <[key := val]> (default ∅ (cmd_opts !! cmd))]> cmd_opts)
    dist in
  if bool_decide (key ∈ valid) then mret dist
  else
  let! _ := warn ("Command option " +:+ cmd +:+ "." +:+ key
                  +:+ " is not defined") in
  mret dist.

(** One round of the outer loop of [_copy_command_options]. *)
Definition _copy_command (valid_options : gmap string (gset string))
  (dist : Distribution) (cmd : string) (config : value) : M Distribution :=
  let cmd := json_compatible_key cmd in
  let valid := default ∅ (valid_options !! cmd) in
  let dist :=
  with_command_options
    (λ cmd_opts, match cmd_opts !! cmd with
                 | Some _ => cmd_opts
                 | None => <[cmd := ∅]> cmd_opts
                 end)
    dist in
  match config with
  | VDict options =>
    for_each (λ dist kv, _copy_option cmd valid dist (fst kv) (snd kv))
             options dist
  | _ => raise (AttributeError "items")
  end.

Definition _copy_command_options (pyproject : ref) (dist : Distribution)
  : M Distribution :=
  let! tool_table := ref_get pyproject "tool" (VDict []) in
  let! setuptools := ref_get tool_table "setuptools" (VDict []) in
  let! cmdclass := ref_get setuptools "cmdclass" (VDict []) in
  let! cmdclass := deref cmdclass in
  let! valid_options := _valid_command_options cmdclass in
  let! tool_table := ref_get pyproject "tool" (VDict []) in
  let! distutils := ref_get tool_table "distutils" (VDict []) in
  let! distutils := deref distutils in
  match distutils with
  | VDict commands =>
    for_each (λ dist kv, _copy_command valid_options dist (fst kv) (snd kv))
             commands dist
  | _ => raise (AttributeError "items")
  end.

(** [os.chdir(target)] *)
Definition chdir (target : string) : M unit :=
  λ w, match os_chdir env (cwd w) target with
     | Some dir => (Ok (), {| document := document w; cwd := dir; log := log w |})
     | None => (Raise (OSError target), w)
     end.

Definition getcwd : M string := λ w, (Ok (cwd w), w).

(** A finalize hook, run where the process stands. *)
Definition run_hook (hook : Distribution → string → result Distribution * string)
  (dist : Distribution) : M Distribution :=
  λ w, let '(r, dir) := hook dist (cwd w) in
     (r, {| document := document w; cwd := dir; log := log w |}).

(** The first part of [apply], up to the end of the two loops. *)
Definition apply_tables (dist : Distribution) (config : ref)
  (root_dir : string) : M Distribution :=
  let! tool := ref_get config "tool" (VDict []) in
  let! tool_table := ref_get tool "setuptools" VNone in
  let! project := ref_get config "project" VNone in
  let! project_table := ref_copy project in
  let! project_table := _unify_entry_points project_table in
  let! project_table := _dynamic_license project_table tool_table in
  let! dist :=
  for_refs (λ dist field val, lift (apply_project_field env root_dir dist field val))
           project_table dist in
  let! tool_items := ref_items tool_table in
  for_refs (λ dist field val, lift (apply_tool_field env dist field val))
         tool_items dist.

(** The last part of [apply]: the finalize hooks, run in [root_dir]. *)
Definition apply_finalize (dist : Distribution) (root_dir : string)
  : M Distribution :=
  let! current_directory := getcwd in
  let! _ := chdir root_dir in
  try_finally
  (let! dist := run_hook (_finalize_requires env) dist in
   run_hook (_finalize_license_files env) dist)
  (chdir current_directory).

(** [apply(dist, config, root_dir)], the document being the caller's. *)
Definition apply (dist : Distribution) (root_dir : string) : M Distribution :=
  let config := Shared [] in
  let! dist := apply_tables dist config root_dir in
  let! dist := _copy_command_options config dist in
  apply_finalize dist root_dir.

End Pass.

(** ** A concrete environment

    Stand-ins for the collaborators, small enough to run: a project tree of
    two files, addresses printed without quoting, the setters of the
    distutils metadata class, hooks that leave the distribution alone. *)

Module Sample.

Definition files : list (string * string) :=
  [("README.rst", "Hello"); ("LICENSE.txt", "MIT")].

Definition read_one (path : value) : result string :=
  match path with
  | VStr p => Ok (default "" (Dict.get p files))
  | _ => Raise (TypeError "path")
  end.

Fixpoint read_all (paths : list value) : result (list string) :=
  match paths with
  | [] => Ok []
  | p :: rest =>
    (let* text := read_one p in
     let* texts := read_all rest in
     Ok (text :: texts))%res
  end.

Definition read_tree (filepaths : value) (root_dir : string) : result string :=
  match filepaths with
  | VStr _ => read_one filepaths
  | VList ps | VTuple ps =>
    (let* texts := read_all ps in Ok (PyStr.join (String "010" "") texts))%res
  | _ => Raise (TypeError "filepaths")
  end.

Definition print_address (name email : string) : result string :=
  if String.eqb name "" then Ok email
  else Ok (name +:+ " <" +:+ email +:+ ">").

Definition parse_specifier (val : value) : result value :=
  match val with
  | VStr s => Ok (VSpecifierSet s)
  | _ => Raise (TypeError "specifier")
  end.

Definition setters (field : string) : option (value → result value) :=
  if str_in field ["keywords"; "platforms"; "classifiers"]
  then Some (λ v, Ok v) else None.

Definition keep (dist : Distribution) (dir : string)
  : result Distribution * string := (Ok dist, dir).

Definition build_ext : EntryPoint :=
  {| ep_name := "build_ext";
   ep_load := inl (VClass (Some ["build-lib="; "inplace"; "debug"])) |}.

Definition broken : EntryPoint :=
  {| ep_name := "broken"; ep_load := inr ("ImportError", "no module") |}.

Definition env : Env :=
  {| read_files := read_tree;
   Address_str := print_address;
   SpecifierSet := parse_specifier;
   metadata_setter := setters;
   _finalize_requires := keep;
   _finalize_license_files := keep;
   os_chdir := λ _ target, if String.eqb target "/missing" then None else Some target;
   iter_entry_points := [build_ext; broken];
   global_options := ["verbose"; "quiet"; "dry-run"; "help"; "no-user-cfg"];
   repr := λ _, "<object>";
   license_iterates_first := true |}.

(** The same, with a first finalize hook that wanders off and raises. *)
Definition failing : Env :=
  {| read_files := read_tree;
     Address_str := print_address;
     SpecifierSet := parse_specifier;
     metadata_setter := setters;
     _finalize_requires :=
       λ _ _, (Raise (OtherError "DistutilsSetupError" "bad requirement"), "/tmp");
     _finalize_license_files := keep;
     os_chdir := λ _ target, if String.eqb target "/missing" then None else Some target;
     iter_entry_points := [build_ext; broken];
     global_options := ["verbose"; "quiet"; "dry-run"; "help"; "no-user-cfg"];
     repr := λ _, "<object>";
     license_iterates_first := true |}.

Definition unset (fields : list string) : gmap string value :=
  list_to_map (map (λ f, (f, VNone)) fields).

(** A distribution as its class makes it: every metadata attribute there
    and holding [None]. *)
Definition fresh : Distribution :=
  {| metadata :=
     unset ["name"; "version"; "author"; "author_email"; "maintainer";
            "maintainer_email"; "url"; "license"; "description";
            "long_description"; "keywords"; "platforms"; "classifiers";
            "download_url"; "provides"; "requires"; "obsoletes"];
   attributes := ∅;
   command_options := ∅ |}.

Definition world (doc : value) : World :=
  {| document := doc; cwd := "/home"; log := [] |}.

End Sample.

(** ** Persons, as the spec words them *)

(** A person of the [authors] or [maintainers] list. *)
Record PersonRecord : Type := {
  person_name : option string;
  person_email : option string;
}.

Definition person_value (p : PersonRecord) : value :=
  VDict (match person_name p with Some n => [("name", VStr n)] | None => [] end
         ++ match person_email p with Some e => [("email", VStr e)] | None => [] end).

(** What one person adds to the plain-name field (first list) and to the
    email field (second list), following the policy of the spec. A person
    with neither key has no email to append. *)
Definition contribution (env : Env) (p : PersonRecord)
    : result (list string * list string) :=
  match person_name p, person_email p with
  | Some name, Some email =>
      (let* token := Address_str env name email in Ok ([], [token]))%res
  | Some name, None => Ok ([name], [])
  | None, Some email => Ok ([], [email])
  | None, None => Raise (KeyError "email")
  end.

Fixpoint contributions (env : Env) (ps : list PersonRecord)
    : result (list string * list string) :=
  match ps with
  | [] => Ok ([], [])
  | p :: rest =>
      (let* (names, tokens) := contribution env p in
       let* (names', tokens') := contributions env rest in
       Ok (names ++ names', tokens ++ tokens'))%res
  end.

(** The document of the end-to-end example of the spec. *)
Definition one_author_document : value :=
  VDict [("project",
          VDict [("name", VStr "pkg"); ("version", VStr "1.0");
                 ("authors",
                  VList [VDict [("name", VStr "A"); ("email", VStr "a@x.com")]])]);
         ("tool", VDict [("setuptools", VDict [])])].

(** ** Project URLs, as the loop leaves them *)




Definition with_log (w : World) (l : list string) : World :=
  {| document := document w; cwd := cwd w; log := l |}.

(** ** Command options, as the validator leaves them *)

(** The per-command overrides of the tool table: commands with their
    options, as the dictionary of dictionaries the document holds. *)
Definition commands_value (table : list (string * dict)) : dict :=
  map (λ co, (fst co, VDict (snd co))) table.

(** The option is in the known-option set of its command, both names
    normalised. *)
Definition is_known (valid_options : gmap string (gset string))
    (cmd key : string) : bool :=
  bool_decide (json_compatible_key key
               ∈ default ∅ (valid_options !! json_compatible_key cmd)).

Definition option_warning (cmd key : string) : string :=
  "Command option " +:+ json_compatible_key cmd +:+ "."
  +:+ json_compatible_key key +:+ " is not defined".

(** One warning for each triple whose option is not known, in the order of
    the table. *)
Definition option_warnings (valid_options : gmap string (gset string))
    (table : list (string * dict)) : list string :=
  flat_map (λ co,
    flat_map (λ kv, if is_known valid_options (fst co) (fst kv) then []
                    else [option_warning (fst co) (fst kv)])
             (snd co))
    table.

(** The value of the last option of [options] whose normalised name is [k]. *)
Fixpoint last_option (k : string) (options : dict) : option value :=
  match options with
  | [] => None
  | (key, v) :: rest =>
      match last_option k rest with
      | Some v' => Some v'
      | None => if String.eqb (json_compatible_key key) k then Some v else None
      end
  end.

(** The value of the last triple of [table] whose normalised names are
    [c] and [k]. *)
Fixpoint last_recorded (c k : string) (table : list (string * dict))
    : option value :=
  match table with
  | [] => None
  | (cmd, options) :: rest =>
      match last_recorded c k rest with
      | Some v => Some v
      | None =>
          if String.eqb (json_compatible_key cmd) c
          then last_option k options else None
      end
  end.

(** [dist.command_options[c][k]], when it is there. *)
Definition recorded (dist : Distribution) (c k : string) : option value :=
  match command_options dist !! c with
  | Some options => options !! k
  | None => None
  end.

(** The document of the unknown-option example of the spec. *)
Definition bogus_flag_document : value :=
  VDict [("project", VDict [("name", VStr "pkg"); ("version", VStr "1.0")]);
         ("tool",
          VDict [("setuptools", VDict []);
                 ("distutils", VDict [("build", VDict [("bogus_flag", VInt 1)])])])].

(** ** A document whose objects the pass writes to *)

(** Scripts next to an entry-points table, and a [dynamic] table of the
    tool that does not name the license files. *)
Definition shared_objects_document : value :=
  VDict [("project",
          VDict [("name", VStr "pkg");
                 ("dynamic", VList [VStr "version"]);
                 ("scripts", VDict [("a", VStr "m:f")]);
                 ("entry-points", VDict [("g", VDict [("x", VStr "y:z")])])]);
         ("tool",
          VDict [("setuptools",
                  VDict [("dynamic",
                          VDict [("version",
                                  VDict [("attr", VStr "pkg.__version__")])])])])].

(** ** A project with a dynamic license and an empty tool table *)

Definition dynamic_license_project : dict :=
  [("name", VStr "pkg"); ("version", VStr "1.0");
   ("dynamic", VList [VStr "license"])].

Definition dynamic_license_document : value :=
  VDict [("project", VDict dynamic_license_project);
         ("tool", VDict [("setuptools", VDict [])])].

(** * Notions of the statements and of their proofs *)

(** A computation respects a relation [P] between the world before and
    after it, and a property [Q] of the exception it may raise. *)
Definition respects (P : World → World → Prop) (Q : exn → Prop) {A} (m : M A)
    : Prop :=
  ∀ w, P w (m w).2 ∧ ∀ e, (m w).1 = Raise e → Q e.

(** The metadata class has no [set_<field>] method. *)
Definition no_setter (env : Env) (field : string) : bool :=
  match metadata_setter env field with None => true | Some _ => false end.

(** The body of a readme table is there: its text, or else what is read. *)
Definition body_available (env : Env) (d : dict) (root_dir : string) : Prop :=
  (∃ t, Dict.get "text" d = Some t ∧ truthy t = true)
  ∨ (∃ text, read_files env (default (VList []) (Dict.get "file" d)) root_dir = Ok text).

(** The shallow copy of the caller's project table, for the keys [ks] of
    that table: under each key, the caller's object at that key. *)
Definition copy_of (ks : list string) : list (string * ref) :=
  map (λ k, (k, Shared ["project"; k])) ks.

(** The object at the key [k] of the caller's project table. *)
Definition lookup (w : World) (k : string) : value :=
  default VNone (doc_get ["project"; k] (document w)).

(** The keys left by [pop(k)]. *)
Definition without (k : string) (ks : list string) : list string :=
  List.filter (λ k', negb (String.eqb k k')) ks.

(** What the object behind a reference holds. *)
Definition content (r : ref) (w : World) : value :=
  match r with
  | Local v => v
  | Shared path => default VNone (doc_get path (document w))
  end.

(** The world, and the reference, once the object holds [v]. *)
Definition write (r : ref) (v : value) (w : World) : World :=
  match r with
  | Local _ => w
  | Shared path =>
      {| document := doc_set path v (document w); cwd := cwd w; log := log w |}
  end.

(** The name of an object that holds [v] now. *)
Definition rebind (r : ref) (v : value) : ref :=
  match r with Local _ => Local v | Shared path => Shared path end.

(** The loop of [_unify_entry_points] followed on the keys alone: from the
    content [groups] of the entry-points object and the keys [project] still
    in the copy, the content and the keys when the loop ends, if it does. *)
Fixpoint loop_outcome (values : string → value) (items : list string)
    (groups : value) (project : list string) : option (value * list string) :=
  match items with
  | [] => Some (groups, project)
  | key :: rest =>
      match Dict.get (json_compatible_key key) renaming with
      | Some (VStr renamed) =>
          if truthy (values key) then
            if str_in key project then
              match groups with
              | VDict g =>
                  loop_outcome values rest
                    (VDict (Dict.set renamed (values key) g)) (without key project)
              | _ => None
              end
            else None
          else loop_outcome values rest groups project
      | _ => loop_outcome values rest groups project
      end
  end.

(** The entry-points object is not one of the objects the loop goes over. *)
Definition aside (r : ref) (items : list string) : Prop :=
  match r with
  | Local _ => True
  | Shared path => ∃ a, path = ["project"; a] ∧ ¬ In a items
  end.

(** The key of the caller's project table that holds the entry-points
    object, if any: [project.pop("entry-points", project.pop("entry_points",
    {}))]. *)
Definition alias (ks : list string) : option string :=
  if str_in "entry-points" ks then Some "entry-points"
  else if str_in "entry_points" ks then Some "entry_points"
  else None.

(** The entry-points object: the caller's, or a fresh [{}]. *)
Definition entry_points_ref (ks : list string) : ref :=
  match alias ks with
  | Some a => Shared ["project"; a]
  | None => Local (VDict [])
  end.

(** The keys of the copy after the two [pop]s. *)
Definition unify_items (ks : list string) : list string :=
  without "entry-points" (without "entry_points" ks).

(** The entry-points object and the project table that
    [_unify_entry_points] leaves, when it returns. *)
Definition unify_outcome (env : Env) (values : string → value)
    (ks : list string) : option (value * list (string * ref)) :=
  let groups := match alias ks with Some a => values a | None => VDict [] end in
  match loop_outcome values (unify_items ks) groups (unify_items ks) with
  | Some (groups, project) =>
      if truthy groups then
        match groups with
        | VDict g =>
            match format_groups env g with
            | Ok formatted =>
                Some (groups,
                      Dict.set "entry-points" (Local (VDict formatted))
                        (copy_of project))
            | Raise _ => None
            end
        | _ => None
        end
      else Some (groups, copy_of project)
  | None => None
  end.

(** [set(dynamic_cfg) & dynamic_license if "license" in dynamic else set()],
    in the order of iteration. *)
Definition dynamic_keys (env : Env) (names : list string) (cfg : dict)
    : list string :=
  if str_in "license" names
  then List.filter (λ k, Dict.mem k cfg)
         (if license_iterates_first env
          then ["license"; "license_files"] else ["license_files"; "license"])
  else [].

(** [for key in keys: project_table[norm_key] = dynamic_cfg[key]] *)
Definition promote (cfg : dict) (keys : list string)
    (table : list (string * ref)) : list (string * ref) :=
  fold_left (λ table key,
               match Dict.get key cfg with
               | Some v => Dict.set (json_compatible_key key) (Local v) table
               | None => table
               end)
            keys table.

(** The object [tool_table.get("dynamic", {})] gives. *)
Definition dynamic_cfg_ref (path : list string) (tool_table : value) : ref :=
  match tool_table with
  | VDict s => match Dict.get "dynamic" s with
               | Some _ => Shared (path ++ ["dynamic"])
               | None => Local (VDict [])
               end
  | _ => Local VNone
  end.

(** The [dynamic] object of the tool table and the project table that
    [_dynamic_license] leaves, when it returns. *)
Definition dynamic_outcome (env : Env) (declared tool_table : value)
    (table : list (string * ref)) : option (value * list (string * ref)) :=
  match (let* names := iterate declared in normalised_keys names)%res with
  | Ok names =>
      match tool_table with
      | VDict s =>
          match default (VDict []) (Dict.get "dynamic" s) with
          | VDict dd =>
              let cfg := Dict.setdefault "license_files" DEFAULT_LICENSE_FILES dd in
              Some (VDict cfg, promote cfg (dynamic_keys env names cfg) table)
          | _ => None
          end
      | _ => None
      end
  | Raise _ => None
  end.

(** The two loops of [apply], once the project table is preprocessed. *)
Definition apply_loops (env : Env) (dist : Distribution) (root_dir : string)
    (tool_table : ref) (project_table : list (string * ref)) : M Distribution :=
  mbind (for_refs
           (λ dist field val, lift (apply_project_field env root_dir dist field val))
           project_table dist)
    (λ dist,
       mbind (ref_items tool_table)
         (λ tool_items,
            for_refs (λ dist field val, lift (apply_tool_field env dist field val))
                     tool_items dist)).

(** What follows the preprocessing: the two loops, the command options and
    the finalize hooks. *)
Definition apply_rest (env : Env) (dist : Distribution) (root_dir : string)
    (project_table : list (string * ref)) : M Distribution :=
  mbind (apply_loops env dist root_dir (Shared ["tool"; "setuptools"]) project_table)
    (λ dist,
       mbind (_copy_command_options env (Shared []) dist)
         (λ dist, apply_finalize env dist root_dir)).

(** The document has a project table with the keys [ks] and a [setuptools]
    entry in its tool table. *)
Definition shaped (doc : value) (ks : list string) : Prop :=
  ∃ d t vs p,
    doc = VDict d ∧ Dict.get "tool" d = Some (VDict t)
    ∧ Dict.get "setuptools" t = Some vs
    ∧ Dict.get "project" d = Some (VDict p) ∧ Dict.keys p = ks.

(** Relations between the world before and the world after. *)
Definition same_cwd (w w' : World) : Prop := cwd w' = cwd w.

Definition same_document (w w' : World) : Prop :=
  document w' = document w ∧ cwd w' = cwd w.

(** Two worlds that differ by their logs at most, and a computation that
    does not tell them apart. *)
Definition alike (w w' : World) : Prop :=
  document w = document w' ∧ cwd w = cwd w'.

Definition blind {A} (m : M A) : Prop :=
  ∀ w w', alike w w' → (m w).1 = (m w').1 ∧ alike (m w).2 (m w').2.

(** An exception of Python's own operations, and a computation that ends
    with one. *)
Definition builtin (e : exn) : Prop := is_configuration_error e = false.

Definition fails_at {A} (m : M A) (w : World) : Prop :=
  ∃ e, (m w).1 = Raise e ∧ is_configuration_error e = false.

(** ** Characters of a string *)

Definition first_char (s : string) : option ascii :=
  match s with
  | EmptyString => None
  | String c _ => Some c
  end.

Fixpoint last_char (s : string) : option ascii :=
  match s with
  | EmptyString => None
  | String c EmptyString => Some c
  | String _ s' => last_char s'
  end.

Fixpoint all_chars (P : ascii → bool) (s : string) : bool :=
  match s with
  | EmptyString => true
  | String c s' => P c && all_chars P s'
  end.

(** An ASCII capital letter. *)
Definition is_upper (c : ascii) : bool :=
  let n := nat_of_ascii c in (65 <=? n)%nat && (n <=? 90)%nat.

(** What [json_compatible_key] does to one character. *)
Definition normal_char (c : ascii) : ascii :=
  let c' := PyStr.lower_char c in if Ascii.eqb c' "-" then "_"%char else c'.

Definition stripped_char (c : ascii) : bool := PyStr.char_in c ["_"; "="]%char.

(** ** Fields of the distribution *)

(** What is found where [_set_config] puts a field that has no setter: the
    attribute of the metadata object when it has one of that name or the
    field is a patch field, the attribute of the distribution otherwise. *)
Definition stored (dist : Distribution) (field : string) : option value :=
  if hasattr (metadata dist) field || str_in field SETUPTOOLS_PATCHES
  then metadata dist !! field
  else attributes dist !! field.

(** ** The fields declared dynamic *)

(** The normalised names of [project_table.get("dynamic", [])], as
    [_dynamic_license] reads them. *)
Definition declared_dynamic (table : list (string * ref)) (w : World)
  : result (list string) :=
  (let* names :=
     iterate (content (default (Local (VList [])) (Dict.get "dynamic" table)) w) in
   normalised_keys names)%res.

(** A document with a license directive of the tool. *)
Definition license_directive_document : value :=
  VDict [("project", VDict [("name", VStr "pkg");
                            ("dynamic", VList [VStr "license"])]);
         ("tool", VDict [("setuptools",
            VDict [("dynamic",
              VDict [("license", VDict [("file", VStr "LICENSE.txt")])])])])].

(** A document that declares its version dynamic, and no license. *)
Definition dynamic_version_document : value :=
  VDict [("project", VDict [("name", VStr "pkg");
                            ("dynamic", VList [VStr "version"])]);
         ("tool", VDict [("setuptools",
            VDict [("dynamic",
              VDict [("version", VDict [("attr", VStr "pkg.__version__")])])])])].

(** ** Script tables *)

(** A key of the project table that [_unify_entry_points] takes for a table
    of scripts: its normal form is a key of [renaming]. *)
Definition is_script (key : string) : bool :=
  Dict.mem (json_compatible_key key) renaming.

(** A project with a table of scripts and an empty table of GUI scripts. *)
Definition scripts_document : value :=
  VDict [("project", VDict [("name", VStr "pkg");
                            ("scripts", VDict [("a", VStr "m:f")]);
                            ("gui-scripts", VDict [])])].

(** ** The commands of the plugins *)

(** The commands that the entry points of [distutils.commands] load, in
    their order, and the warnings of those that do not load. *)
Definition loaded_commands (env : Env) : dict :=
  flat_map (λ ep, match ep_load ep with
                  | inl cls => [(ep_name ep, cls)]
                  | inr _ => []
                  end) (iter_entry_points env).

Definition load_warnings (env : Env) : list string :=
  flat_map (λ ep, match ep_load ep with
                  | inl _ => []
                  | inr (class_name, ex) =>
                      [(class_name +:+ " while trying to load entry-point "
                        +:+ ep_name ep) +:+ ": " +:+ ex]
                  end) (iter_entry_points env).

(** The option sets built from the global options, the loaded commands and
    the entries of [cmdclass], in this order. *)
Definition known_options (env : Env) (cmdclass : dict)
  : gmap string (gset string) :=
  fold_left (λ acc kv, add_command acc (fst kv) (snd kv))
            (loaded_commands env ++ cmdclass)
            {[ "global" := _normalise_cmd_options (global_options env) ]}.

(** ** The options of the commands *)

(** From [dist] to [dist'] only options of commands were added or given a
    new value. *)
Definition keeps_options (dist dist' : Distribution) : Prop :=
  metadata dist' = metadata dist
  ∧ attributes dist' = attributes dist
  ∧ (∀ c, is_Some (command_options dist !! c) →
          is_Some (command_options dist' !! c))
  ∧ ∀ c k, is_Some (recorded dist c k) → is_Some (recorded dist' c k).

(** A document with a command that has no option. *)
Definition empty_command_document : value :=
  VDict [("project", VDict [("name", VStr "pkg")]);
         ("tool", VDict [("setuptools", VDict []);
                         ("distutils", VDict [("Build-Ext", VDict [])])])].

(** ** Places of the document *)


(** ** The fields of the tool table *)




(** ** The groups of entry points *)

(** The table of scripts that the loop of [_unify_entry_points] stores last
    under the name [group]: that of the last key of [items], non-empty, that
    [renaming] maps to [group]. *)
Fixpoint last_moved (values : string → value) (group : string)
    (items : list string) : option value :=
  match items with
  | [] => None
  | key :: rest =>
      match last_moved values group rest with
      | Some v => Some v
      | None =>
          match Dict.get (json_compatible_key key) renaming with
          | Some (VStr renamed) =>
              if truthy (values key) && String.eqb renamed group
              then Some (values key) else None
          | _ => None
          end
      end
  end.

(** A project whose scripts meet a group of console scripts. *)
Definition console_scripts_document : value :=
  VDict [("project",
          VDict [("name", VStr "pkg");
                 ("entry-points",
                  VDict [("console_scripts", VDict [("old", VStr "m:old")]);
                         ("pytest11", VDict [("plug", VStr "m.plug")])]);
                 ("scripts", VDict [("new", VStr "m:new")])])].

(** ** The fields of a project key *)



(** ** What the pass reads of the distribution *)

(** The attributes of the distribution that the pass itself reads after it
    has assigned fields: the metadata object, the command options and the
    two finalize hooks. A field of one of these names that the last branch
    of [_set_config] assigns takes the place of the object. *)
Definition reserved : list string :=
  ["metadata"; "command_options"; "_finalize_requires";
   "_finalize_license_files"].

(** No such field has been assigned: the metadata and the command options
    of the record are what the pass works on. *)
Definition intact (dist : Distribution) : bool :=
  forallb (λ f, negb (hasattr (attributes dist) f)) reserved.

(** ** A process that cannot go back *)

(** The sample environment, in which [os.chdir] to [/home] fails. *)
Definition one_way : Env :=
  {| read_files := read_files Sample.env;
     Address_str := Address_str Sample.env;
     SpecifierSet := SpecifierSet Sample.env;
     metadata_setter := metadata_setter Sample.env;
     _finalize_requires := _finalize_requires Sample.env;
     _finalize_license_files := _finalize_license_files Sample.env;
     os_chdir := λ _ target,
       if String.eqb target "/home" then None else Some target;
     iter_entry_points := iter_entry_points Sample.env;
     global_options := global_options Sample.env;
     repr := repr Sample.env;
     license_iterates_first := license_iterates_first Sample.env |}.

(** ** A dynamic license beside a license file *)


(** * Properties *)

(** ** The distribution under [_set_config] *)

Section SetConfig.
Context (env : Env).
Implicit Types (dist : Distribution) (field : string) (v : value).

Lemma _set_config_metadata dist field v :
  no_setter env field = true →
  hasattr (metadata dist) field || str_in field SETUPTOOLS_PATCHES = true →
  _set_config env dist field v = Ok (with_metadata <[field := v]> dist).
  Proof.
  unfold no_setter, _set_config. intros Hs Hm.
  destruct (metadata_setter env field); [discriminate|]. by rewrite Hm.
  Qed.



End SetConfig.

(** ** The readme *)

(** C1, as the code has it: a readme given as a plain string names a file.
    The content type of the description becomes the fixed [text/x-rst], and
    the text of the description is what the file-expansion collaborator
    reads for that string under the root directory. *)
Theorem readme_string_is_read_as_a_file (env : Env) (dist : Distribution)
    (s root_dir text : string) :
  no_setter env "long_description" = true →
  no_setter env "long_description_content_type" = true →
  hasattr (metadata dist) "long_description" = true →
  read_files env (VStr s) root_dir = Ok text →
  ∃ dist', _long_description env dist (VStr s) root_dir = Ok dist'
    ∧ metadata dist' !! "long_description_content_type" = Some (VStr "text/x-rst")
    ∧ metadata dist' !! "long_description" = Some (VStr text).
Proof.
  intros Hs1 Hs2 Hattr Hread. unfold _long_description.
  rewrite Hread. simpl.
  rewrite (_set_config_metadata env dist) by (done || by rewrite Hattr).
  simpl. rewrite _set_config_metadata by (done || apply orb_true_r).
  eexists. split; [done|]. simpl. split.
  - by rewrite lookup_insert_eq.
  - rewrite lookup_insert_ne by done. by rewrite lookup_insert_eq.
Qed.

Lemma readme_string_is_read_as_a_file_witness :
  ∃ dist', _long_description Sample.env Sample.fresh (VStr "README.rst") "/p" = Ok dist'
    ∧ metadata dist' !! "long_description_content_type" = Some (VStr "text/x-rst")
    ∧ metadata dist' !! "long_description" = Some (VStr "Hello").
Proof.
  apply (readme_string_is_read_as_a_file Sample.env Sample.fresh
           "README.rst" "/p" "Hello"); reflexivity.
Defined.

(** C1 as written fails: the description is the content of the file, not
    the string. *)
Lemma readme_string_is_not_inline_text :
  ∃ dist', _long_description Sample.env Sample.fresh (VStr "README.rst") "/p" = Ok dist'
    ∧ metadata dist' !! "long_description" = Some (VStr "Hello")
    ∧ metadata dist' !! "long_description" ≠ Some (VStr "README.rst").
Proof.
  eexists. split; [vm_compute; reflexivity|]. split; [reflexivity|].
  vm_compute. discriminate.
Qed.

(** C4, as the code has it: a readme table without a [content-type] key
    makes the translator fail, and no field is assigned. When the body of
    the readme is available, from [text] or from [file], the exception is
    the [KeyError] of the lookup of [content-type], which is not a
    configuration error. *)
Theorem readme_table_without_content_type (env : Env) (dist : Distribution)
    (d : dict) (root_dir : string) :
  Dict.get "content-type" d = None →
  (∃ e, _long_description env dist (VDict d) root_dir = Raise e)
  ∧ (body_available env d root_dir →
     _long_description env dist (VDict d) root_dir = Raise (KeyError "content-type"))
  ∧ is_configuration_error (KeyError "content-type") = false.
Proof.
  intros Hct. unfold _long_description, getitem. rewrite Hct.
  split; [|split; [|done]].
  - destruct (Dict.get "text" d) as [t|]; [destruct (truthy t)|]; simpl; eauto;
      destruct (read_files env _ root_dir); simpl; eauto.
  - intros [(t & -> & ->)|(text & Htext)]; [done|].
    rewrite Htext.
    by destruct (Dict.get "text" d) as [t|]; [destruct (truthy t)|].
Qed.

Lemma readme_table_without_content_type_witness :
  (∃ e, _long_description Sample.env Sample.fresh
          (VDict [("file", VStr "README.rst")]) "/p" = Raise e)
  ∧ (body_available Sample.env [("file", VStr "README.rst")] "/p" →
     _long_description Sample.env Sample.fresh
       (VDict [("file", VStr "README.rst")]) "/p" = Raise (KeyError "content-type"))
  ∧ is_configuration_error (KeyError "content-type") = false.
Proof.
  apply (readme_table_without_content_type Sample.env Sample.fresh
           [("file", VStr "README.rst")] "/p"); reflexivity.
Defined.

(** C4 as written fails: the exception is a [KeyError]. *)
Lemma readme_table_raises_key_error :
  _long_description Sample.env Sample.fresh (VDict [("text", VStr "hi")]) "/p"
    = Raise (KeyError "content-type")
  ∧ is_configuration_error (KeyError "content-type") = false.
Proof. split; reflexivity. Qed.

(** ** Authors and maintainers *)

Section People.
Context (env : Env).

Lemma strs_of_strings (l : list string) : strs_of (map VStr l) = Ok l.
  Proof. induction l as [|s l IH]; simpl; [done|]. by rewrite IH. Qed.

Lemma comma_join_strings (l : list string) :
  comma_join (map VStr l) = Ok (VStr (PyStr.join ", " l)).
  Proof. unfold comma_join. by rewrite strs_of_strings. Qed.

Lemma truthy_strings (l : list string) :
  truthy (VList (map VStr l)) = negb (bool_decide (l = [])).
  Proof. by destruct l. Qed.

Lemma _people_step_contribution p field email_field names tokens :
  contribution env p = Ok (names, tokens) →
  _people_step env (field, email_field) (person_value p)
  = Ok (field ++ map VStr names, email_field ++ map VStr tokens).
  Proof.
  destruct p as [[name|] [email|]]; unfold contribution, person_value; simpl.
  - destruct (Address_str env name email) as [token|]; simpl; [|done].
  intros [= <- <-]. simpl. by rewrite app_nil_r.
  - intros [= <- <-]. simpl. by rewrite app_nil_r.
  - intros [= <- <-]. simpl. by rewrite app_nil_r.
  - done.
  Qed.

Lemma _people_loop_contributions ps field email_field names tokens :
  contributions env ps = Ok (names, tokens) →
  _people_loop env (map person_value ps) (field, email_field)
  = Ok (field ++ map VStr names, email_field ++ map VStr tokens).
  Proof.
  revert field email_field names tokens.
  induction ps as [|p ps IH]; intros field email_field names tokens;
  cbn [contributions map _people_loop].
  - intros [= <- <-]. simpl. by rewrite !app_nil_r.
  - intros H.
  destruct (contribution env p) as [[n t]|] eqn:Hp; simpl in H; [|done].
  destruct (contributions env ps) as [[ns ts]|] eqn:Hps; simpl in H; [|done].
  injection H as <- <-.
  rewrite (_people_step_contribution _ _ _ _ _ Hp). cbn [rbind].
  rewrite (IH _ _ _ _ eq_refl). by rewrite !map_app, !app_assoc.
  Qed.
End People.

(** C2, as the code has it: every person adds to the two fields of its role
    what the policy says (both keys: one token of the address printer in the
    email field and nothing in the plain-name field; a name only: the name
    in the plain-name field; an email only: the bare email in the email
    field), each field is the comma-joined list of what it received, and a
    field that received nothing is not assigned. For the document of the
    example the model has [name], [version] and
    [author_email = "A <a@x.com>"], and [author] is left as the fresh model
    has it. *)
Theorem people_follow_the_policy (env : Env) (kind : string)
    (dist : Distribution) (ps : list PersonRecord) (root_dir : string)
    (names tokens : list string) :
  contributions env ps = Ok (names, tokens) →
  _people env kind dist (VList (map person_value ps)) root_dir
  = (let* dist := if bool_decide (names = []) then Ok dist
                  else _set_config env dist kind (VStr (PyStr.join ", " names)) in
     if bool_decide (tokens = []) then Ok dist
     else _set_config env dist (kind +:+ "_email") (VStr (PyStr.join ", " tokens)))%res
  ∧ ∃ dist' w',
      apply Sample.env Sample.fresh "/p" (Sample.world one_author_document)
      = (Ok dist', w')
      ∧ metadata dist' !! "name" = Some (VStr "pkg")
      ∧ metadata dist' !! "version" = Some (VStr "1.0")
      ∧ metadata dist' !! "author" = metadata Sample.fresh !! "author"
      ∧ metadata dist' !! "author_email" = Some (VStr "A <a@x.com>").
Proof.
  intros Hc. split.
  - unfold _people. cbn [iterate rbind].
    rewrite (_people_loop_contributions env ps [] [] names tokens Hc).
    cbn [rbind app]. rewrite !truthy_strings, !comma_join_strings.
    destruct names, tokens; reflexivity.
  - eexists _, _. split; [vm_compute; reflexivity|].
    repeat split; vm_compute; reflexivity.
Qed.

Lemma people_follow_the_policy_witness :
  _people Sample.env "author" Sample.fresh
    (VList (map person_value
              [{| person_name := Some "A"; person_email := None |};
               {| person_name := Some "B"; person_email := Some "b@x" |}])) "/p"
  = (let* dist := if bool_decide (["A"] = []) then Ok Sample.fresh
                  else _set_config Sample.env Sample.fresh "author"
                         (VStr (PyStr.join ", " ["A"])) in
     if bool_decide (["B <b@x>"] = []) then Ok dist
     else _set_config Sample.env dist ("author" +:+ "_email")
            (VStr (PyStr.join ", " ["B <b@x>"])))%res
  ∧ ∃ dist' w',
      apply Sample.env Sample.fresh "/p" (Sample.world one_author_document)
      = (Ok dist', w')
      ∧ metadata dist' !! "name" = Some (VStr "pkg")
      ∧ metadata dist' !! "version" = Some (VStr "1.0")
      ∧ metadata dist' !! "author" = metadata Sample.fresh !! "author"
      ∧ metadata dist' !! "author_email" = Some (VStr "A <a@x.com>").
Proof.
  apply (people_follow_the_policy Sample.env "author" Sample.fresh
           [{| person_name := Some "A"; person_email := None |};
            {| person_name := Some "B"; person_email := Some "b@x" |}]
           "/p" ["A"] ["B <b@x>"]).
  reflexivity.
Defined.

(** C2 as written fails on the example: [author] is not assigned the empty
    string, it keeps the [None] of the fresh model. *)
Lemma one_author_leaves_author_unset :
  ∃ dist' w',
    apply Sample.env Sample.fresh "/p" (Sample.world one_author_document)
    = (Ok dist', w')
    ∧ metadata dist' !! "author" = Some VNone
    ∧ metadata dist' !! "author" ≠ Some (VStr "").
Proof.
  eexists _, _. split; [vm_compute; reflexivity|].
  split; [vm_compute; reflexivity|]. vm_compute. discriminate.
Qed.

(** ** Project URLs *)

Section Urls.
Context (env : Env).




End Urls.




(** On that table the translator returns, and the model has the URL. *)
Example homepage_on_the_sample :
  ∃ dist',
    _project_urls Sample.env Sample.fresh
      (VDict [("Home-Page", VStr "https://a.example");
              ("Documentation", VStr "https://docs.example")]) "/p" = Ok dist'
    ∧ metadata dist' !! "url" = Some (VStr "https://a.example").
Proof. eexists. split; vm_compute; reflexivity. Qed.


(** ** The tool-options validator *)

Section Validator.
Context (valid_options : gmap string (gset string)).

Lemma recorded_setdefault dist c c' k' :
  recorded
    (with_command_options
       (λ cmd_opts, match cmd_opts !! c with
                    | Some _ => cmd_opts
                    | None => <[c := ∅]> cmd_opts
                    end) dist) c' k'
  = recorded dist c' k'.
  Proof.
  unfold recorded. simpl.
  destruct (command_options dist !! c) eqn:Hc; [done|].
  destruct (decide (c = c')) as [<-|Hne].
  - by rewrite lookup_insert_eq, Hc, lookup_empty.
  - by rewrite lookup_insert_ne.
  Qed.

Lemma recorded_setitem dist c k v c' k' :
  recorded
    (with_command_options
       (λ cmd_opts, <[c := <[k := v]> (default ∅ (cmd_opts !! c))]> cmd_opts)
       dist) c' k'
  = if String.eqb c c' && String.eqb k k' then Some v else recorded dist c' k'.
  Proof.
  unfold recorded. simpl.
  destruct (String.eqb c c') eqn:Hc.
  - apply String.eqb_eq in Hc as <-. rewrite lookup_insert_eq.
    destruct (String.eqb k k') eqn:Hk; simpl.
    + apply String.eqb_eq in Hk as <-. by rewrite lookup_insert_eq.
    + apply String.eqb_neq in Hk. rewrite lookup_insert_ne by done.
      destruct (command_options dist !! c); simpl; [done|apply lookup_empty].
  - apply String.eqb_neq in Hc. by rewrite lookup_insert_ne.
  Qed.

(** The inner loop: the options of one command. *)
Lemma _copy_options_loop (cmd : string) (options : dict) (dist : Distribution)
    (w : World) :
  let c := json_compatible_key cmd in
  ∃ dist',
    for_each (λ dist kv,
                _copy_option c (default ∅ (valid_options !! c)) dist (fst kv) (snd kv))
             options dist w
    = (Ok dist',
       with_log w (log w ++ flat_map (λ kv,
                     if is_known valid_options cmd (fst kv) then []
                     else [option_warning cmd (fst kv)]) options))
    ∧ ∀ c' k', recorded dist' c' k'
               = match (if String.eqb c c' then last_option k' options else None) with
                 | Some v => Some v
                 | None => recorded dist c' k'
                 end.
  Proof.
  intros c. revert dist w.
  induction options as [|[key v] options IH]; intros dist w.
  - exists dist. split.
    + simpl. unfold mret, with_log. rewrite app_nil_r. by destruct w.
    + intros c' k'. by destruct (String.eqb c c').
  - cbn [for_each flat_map fst snd]. unfold mbind at 1.
    unfold _copy_option at 1. fold c.
    unfold is_known at 1. fold c.
    set (dist1 := with_command_options _ dist).
    destruct (bool_decide (json_compatible_key key ∈ default ∅ (valid_options !! c))).
    + unfold mret at 1.
      destruct (IH dist1 w) as (dist' & -> & Hrec).
      exists dist'. split; [done|]. intros c' k'. rewrite Hrec.
      unfold dist1. rewrite recorded_setitem. cbn [last_option].
      destruct (String.eqb c c'); [|done].
      destruct (last_option k' options); [done|]. simpl.
      by destruct (String.eqb (json_compatible_key key) k').
    + unfold mbind at 1, warn at 1, mret at 1.
      destruct (IH dist1 (with_log w (log w ++ [option_warning cmd key])))
        as (dist' & Hloop & Hrec).
      exists dist'. split.
      * unfold with_log in Hloop. unfold option_warning in Hloop at 1.
        fold c in Hloop. rewrite Hloop. unfold with_log. simpl.
        by rewrite <- app_assoc.
      * intros c' k'. rewrite Hrec.
        unfold dist1. rewrite recorded_setitem. cbn [last_option].
        destruct (String.eqb c c'); [|done].
        destruct (last_option k' options); [done|]. simpl.
        by destruct (String.eqb (json_compatible_key key) k').
  Qed.

(** The outer loop: the commands of the table. *)
Lemma _copy_commands_loop (table : list (string * dict)) (dist : Distribution)
    (w : World) :
  ∃ dist',
    for_each (λ dist kv, _copy_command valid_options dist (fst kv) (snd kv))
             (commands_value table) dist w
    = (Ok dist', with_log w (log w ++ option_warnings valid_options table))
    ∧ ∀ c k, recorded dist' c k
             = match last_recorded c k table with
               | Some v => Some v
               | None => recorded dist c k
               end.
  Proof.
  revert dist w. induction table as [|[cmd options] table IH]; intros dist w.
  - exists dist. split; [|done].
    simpl. unfold mret, with_log. rewrite app_nil_r. by destruct w.
  - cbn [commands_value map for_each fst snd]. unfold mbind at 1.
    unfold _copy_command at 1.
    set (dist0 := with_command_options _ dist).
    destruct (_copy_options_loop cmd options dist0 w) as (dist1 & -> & Hrec1).
    destruct (IH dist1 (with_log w (log w ++ flat_map (λ kv,
                if is_known valid_options cmd (fst kv) then []
                else [option_warning cmd (fst kv)]) options)))
      as (dist' & Hloop & Hrec).
    exists dist'. split.
    + unfold commands_value in Hloop. rewrite Hloop.
      unfold with_log, option_warnings. simpl. by rewrite <- app_assoc.
    + intros c k. rewrite Hrec, Hrec1. cbn [last_recorded].
      unfold dist0. rewrite recorded_setdefault.
      destruct (last_recorded c k table); [done|].
      by destruct (String.eqb (json_compatible_key cmd) c).
  Qed.
End Validator.




(** ** What every step of the pass respects

    A relation [P] between the world before and after a computation, and a
    property [Q] of the exception it may raise; both are kept by sequencing
    and by the loops. *)

Section Respects.
Context (P : World → World → Prop) (Q : exn → Prop).
Context (P_refl : ∀ w, P w w).
Context (P_trans : ∀ w1 w2 w3, P w1 w2 → P w2 w3 → P w1 w3).
Context (P_log : ∀ w l, P w (with_log w l)).
Context (P_document : ∀ w d,
  P w {| document := d; cwd := cwd w; log := log w |}).

Lemma respects_mret {A} (a : A) : respects P Q (mret a).
Proof. intros w. split; [apply P_refl|done]. Qed.

Lemma respects_raise {A} (e : exn) : Q e → respects P Q (@raise A e).
Proof. intros He w. split; [apply P_refl|]. by intros e' [= <-]. Qed.

Lemma respects_lift {A} (r : result A) :
  (∀ e, r = Raise e → Q e) → respects P Q (lift r).
Proof. intros Hr w. split; [apply P_refl|]. apply Hr. Qed.

Lemma respects_mbind {A B} (m : M A) (k : A → M B) :
  respects P Q m → (∀ a, respects P Q (k a)) → respects P Q (mbind m k).
Proof.
  intros Hm Hk w. unfold mbind. destruct (Hm w) as [HP HQ].
  destruct (m w) as [[a|e] w']; simpl in *.
  - destruct (Hk a w') as [HP' HQ']. split; [by eapply P_trans|done].
  - split; [done|]. intros e' [= <-]. by apply HQ.
Qed.

Lemma respects_warn (msg : string) : respects P Q (warn msg).
Proof. intros w. split; [apply (P_log w)|done]. Qed.

Lemma respects_deref (r : ref) : respects P Q (deref r).
Proof. intros w. split; [apply P_refl|done]. Qed.

Lemma respects_update (r : ref) (v : value) : respects P Q (update r v).
Proof.
  destruct r as [v0|path]; [apply respects_mret|].
  intros w. split; [apply P_document|done].
Qed.

Lemma respects_for_each {S X} (step : S → X → M S) (xs : list X) (s : S) :
  (∀ s x, respects P Q (step s x)) → respects P Q (for_each step xs s).
Proof.
  intros Hstep. revert s. induction xs as [|x xs IH]; intros s; simpl.
  - apply respects_mret.
  - apply respects_mbind; [apply Hstep|apply IH].
Qed.

Lemma respects_for_refs {S} (step : S → string → value → M S)
    (items : list (string * ref)) (s : S) :
  (∀ s k v, respects P Q (step s k v)) → respects P Q (for_refs step items s).
Proof.
  intros Hstep. revert s. induction items as [|[k r] items IH]; intros s; simpl.
  - apply respects_mret.
  - apply respects_mbind; [apply respects_deref|]. intros v.
    apply respects_mbind; [apply Hstep|apply IH].
Qed.

(** The exceptions the pass raises by itself are those of Python's own
    operations, never a configuration error. *)
Context (Q_builtin : ∀ e, is_configuration_error e = false → Q e).

Ltac respects_step :=
  first
    [ apply respects_mret | apply respects_warn | apply respects_deref
    | apply respects_update
    | apply respects_raise; apply Q_builtin; reflexivity
    | apply respects_mbind; [|intros ?]
    | apply respects_for_each; intros ? ?
    | apply respects_for_refs; intros ? ? ?
    | match goal with
      | |- respects P Q (match ?x with _ => _ end) => destruct x
      end ].

Ltac respects_auto := repeat respects_step.

Lemma respects_ref_get r k dflt : respects P Q (ref_get r k dflt).
Proof. unfold ref_get. respects_auto. Qed.

Lemma respects_ref_setitem r k v : respects P Q (ref_setitem r k v).
Proof. unfold ref_setitem. respects_auto. Qed.

Lemma respects_ref_copy r : respects P Q (ref_copy r).
Proof. unfold ref_copy. respects_auto. Qed.

Lemma respects_ref_items r : respects P Q (ref_items r).
Proof. unfold ref_items. respects_auto. Qed.

Lemma builtin_iterate v e :
  iterate v = Raise e → is_configuration_error e = false.
Proof. destruct v; simpl; intros [= <-]; done. Qed.

Lemma builtin_normalised_keys names e :
  normalised_keys names = Raise e → is_configuration_error e = false.
Proof.
  induction names as [|v names IH]; [done|]. simpl.
  destruct v; try (by intros [= <-]).
  destruct (normalised_keys names); simpl; [done|]. intros [= <-]. by apply IH.
Qed.

Lemma builtin_getitem k d e :
  getitem k d = Raise e → is_configuration_error e = false.
Proof. unfold getitem. destruct (Dict.get k d); [done|]. by intros [= <-]. Qed.

Lemma builtin_format_groups env g e :
  format_groups env g = Raise e → is_configuration_error e = false.
Proof.
  induction g as [|[name group] g IH]; [done|]. simpl.
  destruct group; simpl; try (by intros [= <-]).
  destruct (format_groups env g); simpl; [done|]. intros [= <-]. by apply IH.
Qed.

Lemma respects__dynamic_license env project_table tool_table :
  respects P Q (_dynamic_license env project_table tool_table).
Proof.
  unfold _dynamic_license.
  apply respects_mbind; [apply respects_deref|]. intros declared.
  apply respects_mbind.
  { apply respects_lift. intros e He. apply Q_builtin.
    destruct (iterate declared) eqn:Hi; simpl in He.
    - by eapply builtin_normalised_keys.
    - injection He as <-. by eapply builtin_iterate. }
  intros dynamic.
  apply respects_mbind; [apply respects_ref_get|]. intros dynamic_cfg.
  respects_auto.
  apply respects_lift. intros e He. apply Q_builtin. by eapply builtin_getitem.
Qed.

Lemma respects__unify_step st key val :
  respects P Q (_unify_step st key val).
Proof.
  unfold _unify_step. destruct st as [entry_points project].
  destruct (Dict.get _ renaming) as [[]|]; try apply respects_mret.
  destruct (truthy val); [|apply respects_mret].
  destruct (Dict.pop key project) as [[r|] project'].
  - apply respects_mbind; [apply respects_deref|]. intros group.
    apply respects_mbind; [apply respects_ref_setitem|]. intros ?.
    apply respects_mret.
  - apply respects_raise. by apply Q_builtin.
Qed.

Lemma respects__unify_entry_points env project :
  respects P Q (_unify_entry_points env project).
Proof.
  unfold _unify_entry_points.
  destruct (Dict.pop "entry_points" project) as [inner project1].
  destruct (Dict.pop "entry-points" project1) as [outer project2].
  apply respects_mbind.
  { apply respects_for_refs. intros. apply respects__unify_step. }
  intros [entry_points project3].
  apply respects_mbind; [apply respects_deref|]. intros groups.
  destruct (truthy groups); [|apply respects_mret].
  destruct groups; try (apply respects_raise; by apply Q_builtin).
  apply respects_mbind; [|intros; apply respects_mret].
  apply respects_lift. intros e He. apply Q_builtin.
  by eapply builtin_format_groups.
Qed.

Lemma respects__valid_command_options env cmdclass :
  respects P Q (_valid_command_options env cmdclass).
Proof.
  unfold _valid_command_options, _load_ep. respects_auto.
Qed.

Lemma respects__copy_command valid_options dist cmd config :
  respects P Q (_copy_command valid_options dist cmd config).
Proof. unfold _copy_command, _copy_option. respects_auto. Qed.

Lemma respects__copy_command_options env pyproject dist :
  respects P Q (_copy_command_options env pyproject dist).
Proof.
  unfold _copy_command_options.
  repeat (apply respects_mbind;
          [first [apply respects_ref_get | apply respects_deref
                 | apply respects__valid_command_options]|intros ?]).
  respects_auto. apply respects__copy_command.
Qed.

(** The two loops of [apply] run the translators, whose collaborators may
    raise anything. *)
Lemma respects_apply_tables env dist config root_dir :
  (∀ e, Q e) → respects P Q (apply_tables env dist config root_dir).
Proof.
  intros HQ. unfold apply_tables.
  repeat (apply respects_mbind;
          [first [apply respects_ref_get | apply respects_ref_copy
                 | apply respects_ref_items
                 | apply respects__unify_entry_points
                 | apply respects__dynamic_license
                 | apply respects_for_refs; intros; apply respects_lift; auto]
          |intros ?]).
  apply respects_for_refs; intros; apply respects_lift; auto.
Qed.
End Respects.

(** ** The working directory *)

Lemma apply_finalize_restores (env : Env) (dist : Distribution)
    (root_dir : string) (w : World) :
  (∀ dir, os_chdir env dir (cwd w) = Some (cwd w)) →
  cwd (apply_finalize env dist root_dir w).2 = cwd w.
Proof.
  intros Hback. unfold apply_finalize, mbind, getcwd, chdir at 1.
  destruct (os_chdir env (cwd w) root_dir) as [dir|]; [|done].
  unfold try_finally.
  match goal with
  | |- context [let '(r, w') := ?body in _] => destruct body as [r w']
  end.
  unfold chdir. simpl. by rewrite Hback.
Qed.

(** C6, as the code has it: when the process can go back to the directory
    it started in ([os.chdir] to it succeeds from wherever the process
    stands), the working directory after [apply] is the one before it,
    whatever the outcome of the pass: a model, or an exception of a
    translator, of [os.chdir(root_dir)] or of a finalize hook. *)
Theorem working_directory_is_restored (env : Env) (dist : Distribution)
    (root_dir : string) (w : World) :
  (∀ dir, os_chdir env dir (cwd w) = Some (cwd w)) →
  cwd (apply env dist root_dir w).2 = cwd w.
Proof.
  intros Hback. unfold apply, mbind.
  assert (H1 : respects same_cwd (λ _, True)
                 (apply_tables env dist (Shared []) root_dir)).
  { apply respects_apply_tables; unfold same_cwd; intros; simpl;
      try done; congruence. }
  specialize (H1 w) as [H1 _].
  destruct (apply_tables env dist (Shared []) root_dir w) as [[dist1|e] w1];
    simpl in H1; [|done].
  assert (H2 : respects same_cwd (λ _, True)
                 (_copy_command_options env (Shared []) dist1)).
  { apply respects__copy_command_options; unfold same_cwd; intros; simpl;
      try done; congruence. }
  specialize (H2 w1) as [H2 _].
  destruct (_copy_command_options env (Shared []) dist1 w1) as [[dist2|e] w2];
    simpl in H2; [|unfold same_cwd in *; simpl; congruence].
  unfold same_cwd in *.
  rewrite apply_finalize_restores; [congruence|].
  intros dir. rewrite H2, H1. apply Hback.
Qed.

Lemma working_directory_is_restored_witness :
  cwd (apply Sample.failing Sample.fresh "/p" (Sample.world one_author_document)).2
  = cwd (Sample.world one_author_document).
Proof.
  apply (working_directory_is_restored Sample.failing Sample.fresh "/p"
           (Sample.world one_author_document)).
  intros dir. reflexivity.
Defined.

(** C6 as written fails: when the process cannot go back to the directory
    it started in, [os.chdir] in the [finally] clause raises and the pass
    ends in the root directory. *)
Lemma no_way_back :
  (apply one_way Sample.fresh "/p" (Sample.world one_author_document)).1
  = Raise (OSError "/home")
  ∧ cwd (apply one_way Sample.fresh "/p" (Sample.world one_author_document)).2
    = "/p"
  ∧ cwd (apply one_way Sample.fresh "/p" (Sample.world one_author_document)).2
    ≠ cwd (Sample.world one_author_document).
Proof. split; [|split]; vm_compute; (reflexivity || discriminate). Qed.

(** There the first finalize hook raises, away from the root directory. *)
Example a_finalize_hook_raises :
  (apply Sample.failing Sample.fresh "/p" (Sample.world one_author_document)).1
  = Raise (OtherError "DistutilsSetupError" "bad requirement").
Proof. vm_compute. reflexivity. Qed.

(** ** Documents without a project table or a tool table *)

Section Failure.
Context {A B : Type} (m : M A) (k : A → M B).

Lemma fails_at_mbind_l w : fails_at m w → fails_at (mbind m k) w.
Proof.
  intros (e & He & Hb). exists e. unfold mbind.
  destruct (m w) as [[a|e'] w']; simpl in *; [done|]. by injection He as ->.
Qed.

Lemma fails_at_mbind_ok w a w' :
  m w = (Ok a, w') → fails_at (k a) w' → fails_at (mbind m k) w.
Proof. intros Hm Hk. unfold fails_at, mbind. by rewrite Hm. Qed.

Lemma fails_at_mbind_respects w :
  respects (λ _ _, True) builtin m → (∀ a w', fails_at (k a) w') →
  fails_at (mbind m k) w.
Proof.
  intros Hm Hk. unfold fails_at, mbind. destruct (Hm w) as [_ HQ].
  destruct (m w) as [[a|e] w']; simpl in *; [apply Hk|].
  exists e. split; [done|]. by apply HQ.
Qed.
End Failure.

(** Looking up a key leaves the world alone and raises nothing but an
    [AttributeError]. *)
Lemma ref_get_pure r k dflt w :
  ∃ res, ref_get r k dflt w = (res, w) ∧ ∀ e, res = Raise e → builtin e.
Proof.
  unfold ref_get, mbind, deref.
  destruct r as [v|path]; simpl.
  - destruct v; try (eexists; split; [done|]; by intros ? [= <-]).
    destruct (Dict.get k items); eexists; (split; [done|done]).
  - destruct (default VNone (doc_get path (document w)));
      try (eexists; split; [done|]; by intros ? [= <-]).
    destruct (Dict.get k items); eexists; (split; [done|done]).
Qed.

Lemma fails_at_mbind_pure {A B} (m : M A) (k : A → M B) w res :
  m w = (res, w) → (∀ e, res = Raise e → builtin e) →
  (∀ a, res = Ok a → fails_at (k a) w) → fails_at (mbind m k) w.
Proof.
  intros Hm Hb Hk. unfold fails_at, mbind. rewrite Hm.
  destruct res as [a|e]; [by apply Hk|]. exists e. split; [done|]. by apply Hb.
Qed.

Lemma fails_at_ref_copy_none w : fails_at (ref_copy (Local VNone)) w.
Proof. by exists (AttributeError "copy"). Qed.

Lemma fails_at__dynamic_license_none env project_table w :
  fails_at (_dynamic_license env project_table (Local VNone)) w.
Proof.
  unfold _dynamic_license.
  apply fails_at_mbind_respects.
  { by apply respects_deref. }
  intros declared w1. apply fails_at_mbind_respects.
  { apply respects_lift; [done|]. intros e He.
    destruct (iterate declared) eqn:Hi; simpl in He.
    - by eapply builtin_normalised_keys.
    - injection He as <-. by eapply builtin_iterate. }
  intros dynamic w2. apply fails_at_mbind_l.
  by exists (AttributeError "get").
Qed.

(** The two tables are needed up to the end of the preprocessing. *)
Lemma apply_tables_needs_tables (env : Env) (dist : Distribution)
    (root_dir : string) (w : World) :
  doc_get ["project"] (document w) = None
  ∨ doc_get ["tool"; "setuptools"] (document w) = None →
  fails_at (apply_tables env dist (Shared []) root_dir) w.
Proof.
  intros Hmissing. unfold apply_tables.
  assert (Hr : ∀ A (m : M A),
            (∀ Q, (∀ e, is_configuration_error e = false → Q e) →
                  respects (λ _ _, True) Q m) →
            respects (λ _ _, True) builtin m).
  { intros A m Hm. by apply Hm. }
  destruct (document w) as [| | | | | |d| |] eqn:Hdoc;
    try (apply fails_at_mbind_l; exists (AttributeError "get");
         unfold ref_get, mbind, deref; simpl; by rewrite Hdoc).
  destruct Hmissing as [Hproject|Htool].
  - (* no project table *)
    simpl in Hproject.
    destruct (Dict.get "project" d) as [v|] eqn:Hp; [done|].
    destruct (ref_get_pure (Shared []) "tool" (VDict []) w) as (r1 & H1 & Hb1).
    eapply fails_at_mbind_pure; [done..|]. intros tool _.
    destruct (ref_get_pure tool "setuptools" VNone w) as (r2 & H2 & Hb2).
    eapply fails_at_mbind_pure; [done..|]. intros tool_table _.
    eapply (fails_at_mbind_ok _ _ w (Local VNone) w).
    { unfold ref_get, mbind, deref. simpl. by rewrite Hdoc, Hp. }
    apply fails_at_mbind_l, fails_at_ref_copy_none.
  - (* no setuptools table *)
    assert (Hrest : ∀ w', fails_at
              (mbind (ref_get (Shared []) "project" VNone) (λ project,
               mbind (ref_copy project) (λ project_table,
               mbind (_unify_entry_points env project_table) (λ project_table,
               mbind (_dynamic_license env project_table (Local VNone))
                     (λ project_table,
               mbind (for_refs
                        (λ dist field val,
                           lift (apply_project_field env root_dir dist field val))
                        project_table dist) (λ dist,
               mbind (ref_items (Local VNone)) (λ tool_items,
               for_refs (λ dist field val,
                           lift (apply_tool_field env dist field val))
                        tool_items dist))))))) w').
    { intros w'.
      apply fails_at_mbind_respects.
      { apply Hr. intros. by apply respects_ref_get. }
      intros project w1. apply fails_at_mbind_respects.
      { apply Hr. intros. by apply respects_ref_copy. }
      intros project_table w2. apply fails_at_mbind_respects.
      { apply Hr. intros. by apply respects__unify_entry_points. }
      intros project_table' w3.
      apply fails_at_mbind_l, fails_at__dynamic_license_none. }
    simpl in Htool.
    destruct (Dict.get "tool" d) as [tool|] eqn:Ht.
    + eapply (fails_at_mbind_ok _ _ w (Shared ["tool"]) w).
      { unfold ref_get, mbind, deref. simpl. by rewrite Hdoc, Ht. }
      destruct tool as [| | | | | |t| |];
        try (apply fails_at_mbind_l; exists (AttributeError "get");
             unfold ref_get, mbind, deref; simpl; by rewrite Hdoc, Ht).
      destruct (Dict.get "setuptools" t) as [v|] eqn:Hs; [done|].
      eapply (fails_at_mbind_ok _ _ w (Local VNone) w); [|apply Hrest].
      unfold ref_get, mbind, deref. simpl. rewrite Hdoc. simpl.
      rewrite Ht. simpl. by rewrite Hs.
    + eapply (fails_at_mbind_ok _ _ w (Local (VDict [])) w).
      { unfold ref_get, mbind, deref. simpl. by rewrite Hdoc, Ht. }
      eapply (fails_at_mbind_ok _ _ w (Local VNone) w); [done|apply Hrest].
Qed.

(** C10: a document without a [project] table, or without a [setuptools]
    table under [tool], makes [apply] fail before any model is returned, and
    the exception is one of Python's own ([None] has no [copy], no [get]),
    not a configuration error. *)
Theorem missing_table_is_not_a_configuration_error (env : Env)
    (dist : Distribution) (root_dir : string) (w : World) :
  doc_get ["project"] (document w) = None
  ∨ doc_get ["tool"; "setuptools"] (document w) = None →
  ∃ e, (apply env dist root_dir w).1 = Raise e
       ∧ is_configuration_error e = false.
Proof.
  intros Hmissing. unfold apply. apply fails_at_mbind_l.
  by apply apply_tables_needs_tables.
Qed.

Lemma missing_table_is_not_a_configuration_error_witness :
  ∃ e, (apply Sample.env Sample.fresh "/p"
          (Sample.world (VDict [("project", VDict [("name", VStr "pkg")])]))).1
       = Raise e
       ∧ is_configuration_error e = false.
Proof.
  apply (missing_table_is_not_a_configuration_error Sample.env Sample.fresh "/p"
           (Sample.world (VDict [("project", VDict [("name", VStr "pkg")])]))).
  right. reflexivity.
Defined.

(** With the project table there and no tool table, it is the lookup
    [tool_table.get] on [None] that fails; without a project table, the
    copy of [None]. *)
Example no_tool_table_fails_on_get :
  (apply Sample.env Sample.fresh "/p"
     (Sample.world (VDict [("project", VDict [("name", VStr "pkg")])]))).1
  = Raise (AttributeError "get").
Proof. vm_compute. reflexivity. Qed.

Example no_project_table_fails_on_copy :
  (apply Sample.env Sample.fresh "/p"
     (Sample.world (VDict [("tool", VDict [("setuptools", VDict [])])]))).1
  = Raise (AttributeError "copy").
Proof. vm_compute. reflexivity. Qed.

(** ** Dictionaries and documents under update *)

Section DictFacts.
Context {V : Type}.
Implicit Types (d : list (string * V)) (k : string) (v : V).

Lemma mem_true k d : Dict.mem k d = true ↔ is_Some (Dict.get k d).
Proof. unfold Dict.mem. destruct (Dict.get k d); split; (eauto || done || by intros []). Qed.

Lemma get_replace_eq k v d :
  Dict.get k (Dict.replace k v d)
  = match Dict.get k d with Some _ => Some v | None => None end.
Proof.
  induction d as [|[k' v'] d IH]; [done|]. simpl.
  destruct (String.eqb k k') eqn:Hk; simpl; by rewrite Hk.
Qed.

Lemma get_replace_ne k k' v d :
  k ≠ k' → Dict.get k' (Dict.replace k v d) = Dict.get k' d.
Proof.
  intros Hne. induction d as [|[k0 v0] d IH]; [done|]. simpl.
  destruct (String.eqb k k0) eqn:Hk; simpl; [|by rewrite IH].
  apply String.eqb_eq in Hk as <-.
  destruct (String.eqb k' k) eqn:Hk'; [|done].
  apply String.eqb_eq in Hk'. congruence.
Qed.

Lemma mem_replace k k' v d : Dict.mem k' (Dict.replace k v d) = Dict.mem k' d.
Proof.
  unfold Dict.mem. destruct (decide (k = k')) as [<-|Hne].
  - rewrite get_replace_eq. by destruct (Dict.get k d).
  - by rewrite get_replace_ne.
Qed.

Lemma keys_replace k v d : Dict.keys (Dict.replace k v d) = Dict.keys d.
Proof.
  induction d as [|[k' v'] d IH]; [done|]. simpl.
  destruct (String.eqb k k'); simpl; [done|]. f_equal. apply IH.
Qed.

Lemma replace_replace k v v' d :
  Dict.replace k v (Dict.replace k v' d) = Dict.replace k v d.
Proof.
  induction d as [|[k' v0] d IH]; [done|]. simpl.
  destruct (String.eqb k k') eqn:Hk; simpl; rewrite Hk; [done|]. by rewrite IH.
Qed.

Lemma replace_id k v d : Dict.get k d = Some v → Dict.replace k v d = d.
Proof.
  induction d as [|[k' v'] d IH]; [done|]. simpl.
  destruct (String.eqb k k'); [by intros [= ->]|]. intros H. by rewrite IH.
Qed.

Lemma replace_absent k v d : Dict.get k d = None → Dict.replace k v d = d.
Proof.
  induction d as [|[k' v'] d IH]; [done|]. simpl.
  destruct (String.eqb k k'); [done|]. intros H. by rewrite IH.
Qed.

Lemma replace_comm k k' v v' d :
  k ≠ k' →
  Dict.replace k v (Dict.replace k' v' d) = Dict.replace k' v' (Dict.replace k v d).
Proof.
  intros Hne. induction d as [|[k0 v0] d IH]; [done|]. simpl.
  destruct (String.eqb k' k0) eqn:Hk', (String.eqb k k0) eqn:Hk; simpl;
    rewrite ?Hk, ?Hk'; try done.
  - apply String.eqb_eq in Hk, Hk'. congruence.
  - by rewrite IH.
Qed.

Lemma get_app k d d' :
  Dict.get k (d ++ d')
  = match Dict.get k d with Some v => Some v | None => Dict.get k d' end.
Proof.
  induction d as [|[k' v'] d IH]; [done|]. simpl.
  by destruct (String.eqb k k').
Qed.

Lemma replace_app k v d d' :
  Dict.mem k d = true → Dict.replace k v (d ++ d') = Dict.replace k v d ++ d'.
Proof.
  unfold Dict.mem. induction d as [|[k' v'] d IH]; [done|]. simpl.
  destruct (String.eqb k k'); [done|]. intros H. by rewrite IH.
Qed.

Lemma get_remove_eq k d : Dict.get k (Dict.remove k d) = None.
Proof.
  induction d as [|[k' v'] d IH]; [done|]. unfold Dict.remove in *. simpl.
  destruct (String.eqb k k') eqn:Hk; simpl; [done|]. by rewrite Hk.
Qed.

Lemma get_remove_ne k k' d :
  k ≠ k' → Dict.get k' (Dict.remove k d) = Dict.get k' d.
Proof.
  intros Hne. induction d as [|[k0 v0] d IH]; [done|].
  unfold Dict.remove in *. simpl.
  destruct (String.eqb k k0) eqn:Hk; simpl.
  - apply String.eqb_eq in Hk as <-.
    destruct (String.eqb k' k) eqn:Hk'; [|done].
    apply String.eqb_eq in Hk'. congruence.
  - by rewrite IH.
Qed.

Lemma mem_set k k' v d :
  Dict.mem k' (Dict.set k v d) = Dict.mem k' d || String.eqb k' k.
Proof.
  unfold Dict.set. destruct (Dict.mem k d) eqn:Hk.
  - rewrite mem_replace. destruct (String.eqb k' k) eqn:Hk'; [|by rewrite orb_false_r].
    apply String.eqb_eq in Hk' as ->. by rewrite Hk.
  - unfold Dict.mem in *. rewrite get_app. simpl.
    destruct (Dict.get k' d); [done|]. by destruct (String.eqb k' k).
Qed.

Lemma set_set k v v' d : Dict.set k v (Dict.set k v' d) = Dict.set k v d.
Proof.
  unfold Dict.set at 1. rewrite mem_set, String.eqb_refl, orb_true_r.
  unfold Dict.set. destruct (Dict.mem k d) eqn:Hk.
  - apply replace_replace.
  - unfold Dict.mem in Hk. destruct (Dict.get k d) eqn:Hg; [done|].
    clear Hk. induction d as [|[k0 v0] d IH]; simpl.
    + by rewrite String.eqb_refl.
    + simpl in Hg. destruct (String.eqb k k0); [done|]. by rewrite IH.
Qed.

Lemma set_id k v d : Dict.get k d = Some v → Dict.set k v d = d.
Proof.
  intros H. unfold Dict.set, Dict.mem. rewrite H. by apply replace_id.
Qed.

(** Replacing under a key that is there commutes with an assignment to
    another key. *)
Lemma replace_set k k' v v' d :
  k ≠ k' → Dict.mem k d = true →
  Dict.set k' v' (Dict.replace k v d) = Dict.replace k v (Dict.set k' v' d).
Proof.
  intros Hne Hk. unfold Dict.set. rewrite mem_replace.
  destruct (Dict.mem k' d).
  - by apply replace_comm.
  - by rewrite replace_app.
Qed.

Lemma assign_forgets seq k v d :
  Dict.mem k seq = true → Dict.mem k d = true →
  Dict.assign seq (Dict.replace k v d) = Dict.assign seq d.
Proof.
  revert d. induction seq as [|[k1 v1] seq IH]; intros d Hseq Hd; [done|].
  unfold Dict.assign in *. simpl.
  destruct (decide (k1 = k)) as [->|Hne].
  - f_equal. unfold Dict.set. rewrite mem_replace, Hd. apply replace_replace.
  - rewrite replace_set by done. apply IH.
    + unfold Dict.mem in *. simpl in Hseq.
      destruct (String.eqb k k1) eqn:Hk; [|done].
      apply String.eqb_eq in Hk. congruence.
    + by rewrite mem_set, Hd.
Qed.

Lemma get_assign_other seq k d :
  Dict.mem k seq = false → Dict.get k (Dict.assign seq d) = Dict.get k d.
Proof.
  revert d. induction seq as [|[k1 v1] seq IH]; intros d Hseq; [done|].
  unfold Dict.assign in *. simpl. unfold Dict.mem in Hseq. simpl in Hseq.
  destruct (String.eqb k k1) eqn:Hk; [done|]. apply String.eqb_neq in Hk.
  rewrite IH by done. unfold Dict.set.
  destruct (Dict.mem k1 d).
  - by rewrite get_replace_ne.
  - rewrite get_app. simpl. destruct (Dict.get k d); [done|].
    apply String.eqb_neq in Hk. by rewrite Hk.
Qed.

Lemma mem_assign seq k d :
  Dict.mem k (Dict.assign seq d) = Dict.mem k d || Dict.mem k seq.
Proof.
  revert d. induction seq as [|[k1 v1] seq IH]; intros d.
  - by rewrite orb_false_r.
  - unfold Dict.assign in *. simpl. rewrite IH, mem_set.
    unfold Dict.mem at 4. simpl. destruct (String.eqb k k1); simpl.
    + by rewrite orb_true_r.
    + by rewrite orb_false_r.
Qed.

Lemma assign_cons k v seq d :
  Dict.assign ((k, v) :: seq) d = Dict.assign seq (Dict.set k v d).
Proof. done. Qed.

(** Running the same assignments a second time changes nothing. *)
Lemma assign_idempotent seq d : Dict.assign seq (Dict.assign seq d) = Dict.assign seq d.
Proof.
  revert d. induction seq as [|[k v] seq IH]; intros d; [done|].
  rewrite !assign_cons.
  assert (Hg : Dict.get k (Dict.set k v d) = Some v).
  { unfold Dict.set. destruct (Dict.mem k d) eqn:Hd.
    - rewrite get_replace_eq. by apply mem_true in Hd as [? ->].
    - rewrite get_app. unfold Dict.mem in Hd. destruct (Dict.get k d); [done|].
      simpl. by rewrite String.eqb_refl. }
  generalize dependent (Dict.set k v d). intros d' Hg.
  transitivity (Dict.assign seq (Dict.assign seq d')); [|apply IH].
  destruct (Dict.mem k seq) eqn:Hk.
  - unfold Dict.set at 1. rewrite mem_assign, Hk, orb_true_r.
    apply assign_forgets; [done|]. by rewrite mem_assign, Hk, orb_true_r.
  - f_equal. apply set_id. by rewrite get_assign_other.
Qed.
End DictFacts.

Section DocFacts.
Implicit Types (path : list string) (d v : value).

Lemma doc_get_set_same path v d :
  is_Some (doc_get path d) → doc_get path (doc_set path v d) = Some v.
Proof.
  revert d. induction path as [|k path IH]; intros d; [done|]. simpl.
  destruct d; try by intros [].
  destruct (Dict.get k items) as [v'|] eqn:Hk; [|by intros []].
  intros H. simpl. rewrite get_replace_eq, Hk. by apply IH.
Qed.

Lemma doc_set_set path v v' d :
  doc_set path v (doc_set path v' d) = doc_set path v d.
Proof.
  revert d. induction path as [|k path IH]; intros d; [done|]. simpl.
  destruct d; try done.
  destruct (Dict.get k items) as [v0|] eqn:Hk; simpl; [|by rewrite Hk].
  by rewrite get_replace_eq, Hk, replace_replace, IH.
Qed.

Lemma doc_set_id path v d : doc_get path d = Some v → doc_set path v d = d.
Proof.
  revert d. induction path as [|k path IH]; intros d; simpl.
  - by intros [= ->].
  - destruct d; try done.
    destruct (Dict.get k items) as [v0|] eqn:Hk; [|done].
    intros H. rewrite (IH _ H). f_equal. by apply replace_id.
Qed.

(** Writing at one place leaves what is read at a place that branches off
    from it. *)
Lemma doc_get_set_diverge prefix k1 k2 p q v d :
  k1 ≠ k2 →
  doc_get (prefix ++ k1 :: p) (doc_set (prefix ++ k2 :: q) v d)
  = doc_get (prefix ++ k1 :: p) d.
Proof.
  intros Hne. revert d. induction prefix as [|k prefix IH]; intros d; simpl.
  - destruct d; try done.
    destruct (Dict.get k2 items) as [v0|] eqn:Hk; [|done].
    simpl. by rewrite get_replace_ne.
  - destruct d; try done.
    destruct (Dict.get k items) as [v0|] eqn:Hk; [|by simpl; rewrite Hk].
    simpl. by rewrite get_replace_eq, Hk, IH.
Qed.

(** What is read above a place that is written: the dictionary there keeps
    its keys. *)
Lemma doc_get_set_keys path k v d items :
  doc_get path d = Some (VDict items) →
  ∃ items', doc_get path (doc_set (path ++ [k]) v d) = Some (VDict items')
            ∧ Dict.keys items' = Dict.keys items.
Proof.
  revert d. induction path as [|k0 path IH]; intros d; simpl.
  - intros [= ->]. destruct (Dict.get k items) eqn:Hk; [|eauto].
    eexists. split; [done|]. apply keys_replace.
  - destruct d as [| | | | | |items0| |]; try done.
    destruct (Dict.get k0 items0) as [v0|] eqn:Hk; [|done].
    intros H. destruct (IH _ H) as (items' & Hget & Hkeys).
    exists items'. split; [|done]. simpl. by rewrite get_replace_eq, Hk.
Qed.
End DocFacts.

(** ** The entry points, unified *)

Lemma get_copy_of k ks :
  Dict.get k (copy_of ks)
  = if str_in k ks then Some (Shared ["project"; k]) else None.
Proof.
  induction ks as [|k' ks IH]; [done|]. simpl.
  destruct (String.eqb k k') eqn:Hk; simpl; [|done].
  by apply String.eqb_eq in Hk as ->.
Qed.

Lemma remove_copy_of k ks : Dict.remove k (copy_of ks) = copy_of (without k ks).
Proof.
  unfold Dict.remove, without, copy_of.
  induction ks as [|k' ks IH]; [done|]. simpl.
  destruct (String.eqb k k'); simpl; by rewrite IH.
Qed.

Lemma doc_set_invalid path v d : doc_get path d = None → doc_set path v d = d.
Proof.
  revert d. induction path as [|k path IH]; intros d; [done|]. simpl.
  destruct d; try done.
  destruct (Dict.get k items) as [v0|] eqn:Hk; [|done].
  intros H. rewrite (IH _ H). f_equal. by apply replace_id.
Qed.

Lemma write_content r w : write r (content r w) w = w.
Proof.
  destruct r as [v|path]; [done|]. unfold write, content.
  destruct (doc_get path (document w)) as [v|] eqn:Hget; simpl.
  - rewrite doc_set_id by done. by destruct w.
  - rewrite doc_set_invalid by done. by destruct w.
Qed.

Lemma rebind_content r w : rebind r (content r w) = r.
Proof. by destruct r. Qed.

Lemma write_write r v v' w : write (rebind r v') v (write r v' w) = write r v w.
Proof.
  destruct r as [v0|path]; [done|]. unfold write. simpl. by rewrite doc_set_set.
Qed.

Lemma content_write r v w :
  (∃ g, content r w = VDict g) → content (rebind r v) (write r v w) = v.
Proof.
  destruct r as [v0|path]; [done|]. simpl. intros [g Hg].
  rewrite doc_get_set_same; [done|].
  destruct (doc_get path (document w)); [eauto|done].
Qed.

Lemma lookup_write a v w k :
  k ≠ a → lookup (write (Shared ["project"; a]) v w) k = lookup w k.
Proof.
  intros Hne. unfold lookup, write. simpl document. f_equal.
  by apply (doc_get_set_diverge ["project"] k a [] []).
Qed.

Lemma loop_outcome_ext values values' items groups project :
  (∀ k, In k items → values' k = values k) →
  loop_outcome values' items groups project
  = loop_outcome values items groups project.
Proof.
  revert groups project. induction items as [|key rest IH]; intros groups project H;
    [done|].
  cbn [loop_outcome]. rewrite (H key) by (by left).
  assert (Hrest : ∀ k, In k rest → values' k = values k) by (intros; apply H; by right).
  destruct (Dict.get (json_compatible_key key) renaming) as [[]|]; try by apply IH.
  destruct (truthy (values key)); [|by apply IH].
  destruct (str_in key project); [|done].
  destruct groups; try done. by apply IH.
Qed.

Lemma mbind_ok {A B} (m : M A) (k : A → M B) w a w' :
  m w = (Ok a, w') → mbind m k w = k a w'.
Proof. intros H. unfold mbind. by rewrite H. Qed.

Lemma mbind_raise {A B} (m : M A) (k : A → M B) w x :
  (m w).1 = Raise x → (mbind m k w).1 = Raise x.
Proof. unfold mbind. destruct (m w) as [[a|e] w']; simpl; [done|]. by intros [= ->]. Qed.

Lemma deref_content r w : deref r w = (Ok (content r w), w).
Proof. by destruct r. Qed.

Lemma update_write r v w : update r v w = (Ok (rebind r v), write r v w).
Proof. by destruct r. Qed.

Lemma rebind_rebind r v v' : rebind (rebind r v') v = rebind r v.
Proof. by destruct r. Qed.

Lemma lookup_write_aside r v w items k :
  aside r items → In k items → lookup (write r v w) k = lookup w k.
Proof.
  destruct r as [v0|path]; [done|]. intros (a & -> & Ha) Hk.
  apply lookup_write. by intros ->.
Qed.

Lemma _unify_step_outcome ep project key w :
  _unify_step (ep, copy_of project) key (lookup w key) w
  = match Dict.get (json_compatible_key key) renaming with
    | Some (VStr renamed) =>
        if truthy (lookup w key) then
          if str_in key project then
            match content ep w with
            | VDict g =>
                let groups := VDict (Dict.set renamed (lookup w key) g) in
                (Ok (rebind ep groups, copy_of (without key project)),
                 write ep groups w)
            | _ => (Raise (TypeError "item assignment"), w)
            end
          else (Raise (KeyError key), w)
        else (Ok (ep, copy_of project), w)
    | _ => (Ok (ep, copy_of project), w)
    end.
Proof.
  unfold _unify_step.
  destruct (Dict.get (json_compatible_key key) renaming) as [[| | |renamed| | | | |]|];
    try done.
  destruct (truthy (lookup w key)); [|done].
  unfold Dict.pop. rewrite get_copy_of, remove_copy_of.
  destruct (str_in key project); [|done].
  rewrite (mbind_ok _ _ w (lookup w key) w) by done.
  unfold ref_setitem at 1.
  unfold mbind at 1. rewrite (mbind_ok _ _ w (content ep w) w) by apply deref_content.
  destruct (content ep w); try done.
  by rewrite update_write.
Qed.

Lemma unify_loop items ep project w :
  aside ep items →
  match loop_outcome (lookup w) items (content ep w) project with
  | Some (groups, project') =>
      for_refs _unify_step (copy_of items) (ep, copy_of project) w
      = (Ok (rebind ep groups, copy_of project'), write ep groups w)
  | None =>
      ∃ x, (for_refs _unify_step (copy_of items) (ep, copy_of project) w).1
           = Raise x
  end.
Proof.
  revert ep project w. induction items as [|key rest IH]; intros ep project w Haside.
  - simpl. by rewrite rebind_content, write_content.
  - assert (Hrest : aside ep rest).
    { destruct ep as [v|path]; [done|]. destruct Haside as (a & -> & Ha).
      exists a. split; [done|]. intros Hin. apply Ha. by right. }
    assert (Hunfold :
      for_refs _unify_step (copy_of (key :: rest)) (ep, copy_of project) w
      = mbind (_unify_step (ep, copy_of project) key (lookup w key))
              (for_refs _unify_step (copy_of rest)) w) by done.
    rewrite Hunfold. clear Hunfold. cbn [loop_outcome].
    pose proof (_unify_step_outcome ep project key w) as Hstep.
    destruct (Dict.get (json_compatible_key key) renaming) as [[| | |renamed| | | | |]|];
      try (rewrite (mbind_ok _ _ _ _ _ Hstep); by apply IH).
    destruct (truthy (lookup w key));
      [|rewrite (mbind_ok _ _ _ _ _ Hstep); by apply IH].
    destruct (str_in key project).
    2:{ exists (KeyError key). apply mbind_raise. by rewrite Hstep. }
    destruct (content ep w) as [| | | | | |g| |] eqn:Hcontent;
      try (exists (TypeError "item assignment"); apply mbind_raise;
           by rewrite Hstep).
    cbv zeta in Hstep. set (groups := VDict (Dict.set renamed (lookup w key) g)) in *.
    rewrite (mbind_ok _ _ _ _ _ Hstep).
    specialize (IH (rebind ep groups) (without key project) (write ep groups w)).
    rewrite content_write in IH by eauto.
    rewrite (loop_outcome_ext (lookup w)) in IH
      by (intros k Hk; by apply (lookup_write_aside ep groups w rest)).
    destruct (loop_outcome (lookup w) rest groups (without key project))
      as [[groups' project']|].
    + rewrite IH by (by destruct ep). by rewrite rebind_rebind, write_write.
    + apply IH. by destruct ep.
Qed.

Lemma str_in_In k ks : str_in k ks = true ↔ In k ks.
Proof.
  unfold str_in. rewrite existsb_exists. split.
  - intros (x & Hx & ->%String.eqb_eq). done.
  - intros H. exists k. by rewrite String.eqb_refl.
Qed.

Lemma In_without k k' ks : In k (without k' ks) ↔ In k ks ∧ k ≠ k'.
Proof.
  unfold without. rewrite filter_In, negb_true_iff, String.eqb_neq.
  split; intros [? ?]; split; (done || congruence).
Qed.

Lemma str_in_without k k' ks :
  k ≠ k' → str_in k (without k' ks) = str_in k ks.
Proof.
  intros Hne. apply eq_true_iff_eq. rewrite !str_in_In, In_without. tauto.
Qed.

Lemma aside_entry_points_ref ks : aside (entry_points_ref ks) (unify_items ks).
Proof.
  unfold entry_points_ref, alias, unify_items.
  destruct (str_in "entry-points" ks).
  - exists "entry-points". split; [done|]. rewrite In_without. tauto.
  - destruct (str_in "entry_points" ks); [|done].
    exists "entry_points". split; [done|]. rewrite !In_without. tauto.
Qed.

Lemma loop_outcome_groups values items groups project groups' project' :
  loop_outcome values items groups project = Some (groups', project') →
  groups' = groups ∨ ∃ g, groups = VDict g.
Proof.
  revert groups project. induction items as [|key rest IH]; intros groups project.
  - intros [= -> ->]. by left.
  - cbn [loop_outcome].
    destruct (Dict.get (json_compatible_key key) renaming) as [[| | |renamed| | | | |]|];
      try apply IH.
    destruct (truthy (values key)); [|apply IH].
    destruct (str_in key project); [|done].
    destruct groups; try done. eauto.
Qed.

Lemma content_after r w items project groups' project' values :
  loop_outcome values items (content r w) project = Some (groups', project') →
  content (rebind r groups') (write r groups' w) = groups'.
Proof.
  intros [->|Hg]%loop_outcome_groups.
  - by rewrite write_content, rebind_content.
  - by apply content_write.
Qed.

Lemma unify_at env ks w :
  match unify_outcome env (lookup w) ks with
  | Some (groups, table) =>
      _unify_entry_points env (copy_of ks) w
      = (Ok table, write (entry_points_ref ks) groups w)
  | None => ∃ x, (_unify_entry_points env (copy_of ks) w).1 = Raise x
  end.
Proof.
  unfold _unify_entry_points, Dict.pop.
  rewrite !remove_copy_of, !get_copy_of.
  rewrite (str_in_without "entry-points" "entry_points") by done.
  fold (unify_items ks).
  assert (Hep : default (default (Local (VDict []))
                   (if str_in "entry_points" ks
                    then Some (Shared ["project"; "entry_points"]) else None))
                  (if str_in "entry-points" ks
                   then Some (Shared ["project"; "entry-points"]) else None)
                = entry_points_ref ks).
  { unfold entry_points_ref, alias.
    by destruct (str_in "entry-points" ks), (str_in "entry_points" ks). }
  rewrite Hep. clear Hep.
  pose proof (unify_loop (unify_items ks) (entry_points_ref ks) (unify_items ks) w
                (aside_entry_points_ref ks)) as Hloop.
  unfold unify_outcome.
  assert (Hcontent : content (entry_points_ref ks) w
                     = match alias ks with
                       | Some a => lookup w a
                       | None => VDict []
                       end).
  { unfold entry_points_ref. by destruct (alias ks). }
  rewrite <- Hcontent.
  destruct (loop_outcome (lookup w) (unify_items ks)
              (content (entry_points_ref ks) w) (unify_items ks))
    as [[groups project]|] eqn:Hout.
  2:{ destruct Hloop as [x Hx]. exists x. by apply mbind_raise. }
  rewrite (mbind_ok _ _ _ _ _ Hloop).
  rewrite (mbind_ok _ _ _ groups _) by
    (rewrite deref_content; f_equal; f_equal; by eapply content_after).
  destruct (truthy groups); [|done].
  destruct groups as [| | | | | |g| |]; try by eexists.
  destruct (format_groups env g) as [formatted|x] eqn:Hf.
  - done.
  - by exists x.
Qed.

(** On a dictionary the loop is a run of assignments, the same whatever the
    dictionary holds. *)
Lemma loop_outcome_assign values items g project groups' project' :
  loop_outcome values items (VDict g) project = Some (groups', project') →
  ∃ seq, groups' = VDict (Dict.assign seq g)
         ∧ ∀ g0, loop_outcome values items (VDict g0) project
                 = Some (VDict (Dict.assign seq g0), project').
Proof.
  revert g project. induction items as [|key rest IH]; intros g project.
  - intros [= <- <-]. by exists [].
  - cbn [loop_outcome].
    destruct (Dict.get (json_compatible_key key) renaming) as [[| | |renamed| | | | |]|];
      try apply IH.
    destruct (truthy (values key)); [|apply IH].
    destruct (str_in key project); [|done].
    intros (seq & -> & Hseq)%IH.
    exists ((renamed, values key) :: seq). split; [done|].
    intros g0. by rewrite Hseq.
Qed.

(** Run again on the entry-points object it has left, the loop leaves the
    same object and the same project table. *)
Lemma loop_outcome_again values items groups project groups' project' :
  loop_outcome values items groups project = Some (groups', project') →
  loop_outcome values items groups' project = Some (groups', project').
Proof.
  intros H. destruct (loop_outcome_groups _ _ _ _ _ _ H) as [->|[g ->]]; [done|].
  destruct (loop_outcome_assign _ _ _ _ _ _ H) as (seq & -> & Hseq).
  by rewrite Hseq, assign_idempotent.
Qed.

Lemma unify_outcome_again env values values' ks groups table :
  unify_outcome env values ks = Some (groups, table) →
  (∀ k, In k (unify_items ks) → values' k = values k) →
  (∀ a, alias ks = Some a → values' a = groups) →
  unify_outcome env values' ks = Some (groups, table).
Proof.
  unfold unify_outcome. intros H Hitems Halias.
  rewrite (loop_outcome_ext values) by done.
  destruct (loop_outcome values (unify_items ks)
              match alias ks with Some a => values a | None => VDict [] end
              (unify_items ks)) as [[groups0 project0]|] eqn:Hloop; [|done].
  assert (groups0 = groups) as ->.
  { destruct (truthy groups0); [|by injection H].
    destruct groups0; try done.
    destruct (format_groups env items); [by injection H|done]. }
  destruct (alias ks) as [a|].
  - rewrite (Halias a eq_refl), (loop_outcome_again _ _ _ _ _ _ Hloop). done.
  - by rewrite Hloop.
Qed.

(** ** The dynamic license, resolved *)

Lemma doc_get_app path k d :
  doc_get (path ++ [k]) d
  = match doc_get path d with
    | Some (VDict s) => Dict.get k s
    | _ => None
    end.
Proof.
  revert d. induction path as [|k0 path IH]; intros d; simpl.
  - destruct d; try done. by destruct (Dict.get k items).
  - destruct d; try done. destruct (Dict.get k0 items); [apply IH|done].
Qed.

Lemma promote_loop cfg keys table w :
  (∀ k, In k keys → Dict.mem k cfg = true) →
  for_each (λ project_table key,
              mbind (lift (getitem key cfg))
                (λ v, mret (Dict.set (json_compatible_key key) (Local v)
                              project_table)))
           keys table w
  = (Ok (promote cfg keys table), w).
Proof.
  revert table. induction keys as [|key keys IH]; intros table Hmem; [done|].
  cbn [for_each promote fold_left].
  assert (Hk : Dict.mem key cfg = true) by (apply Hmem; by left).
  apply mem_true in Hk as [v Hv].
  erewrite mbind_ok.
  2:{ erewrite mbind_ok; [done|]. unfold lift, getitem. by rewrite Hv. }
  rewrite Hv. apply IH. intros k Hin. apply Hmem. by right.
Qed.

Lemma dynamic_at env table path w :
  let declared :=
    content (default (Local (VList [])) (Dict.get "dynamic" table)) w in
  let tool_table := content (Shared path) w in
  match dynamic_outcome env declared tool_table table with
  | Some (cfg, table') =>
      _dynamic_license env table (Shared path) w
      = (Ok table', write (dynamic_cfg_ref path tool_table) cfg w)
  | None => ∃ x, (_dynamic_license env table (Shared path) w).1 = Raise x
  end.
Proof.
  intros declared tool_table. unfold _dynamic_license, dynamic_outcome.
  rewrite (mbind_ok _ _ w declared w) by apply deref_content.
  destruct (let* names := iterate declared in normalised_keys names)%res
    as [names|x] eqn:Hnames.
  2:{ exists x. by apply mbind_raise. }
  rewrite (mbind_ok _ _ w names w) by done.
  assert (Hget : ref_get (Shared path) "dynamic" (VDict []) w
                 = match tool_table with
                   | VDict _ => (Ok (dynamic_cfg_ref path tool_table), w)
                   | _ => (Raise (AttributeError "get"), w)
                   end).
  { unfold ref_get. rewrite (mbind_ok _ _ w tool_table w) by apply deref_content.
    destruct tool_table; try done. simpl. by destruct (Dict.get "dynamic" items). }
  destruct tool_table as [| | | | | |s| |] eqn:Htool;
    try (exists (AttributeError "get"); apply mbind_raise; by rewrite Hget).
  rewrite (mbind_ok _ _ _ _ _ Hget).
  set (r := dynamic_cfg_ref path (VDict s)).
  assert (Hr : content r w = default (VDict []) (Dict.get "dynamic" s)).
  { unfold r, dynamic_cfg_ref. destruct (Dict.get "dynamic" s) as [v|] eqn:Hd; [|done].
    unfold content. rewrite doc_get_app.
    unfold tool_table, content in Htool.
    destruct (doc_get path (document w)) as [v0|]; [|done]. simpl in Htool.
    subst v0. by rewrite Hd. }
  rewrite (mbind_ok _ _ w (content r w) w) by apply deref_content.
  rewrite Hr.
  destruct (default (VDict []) (Dict.get "dynamic" s)) as [| | | | | |dd| |];
    try (exists (AttributeError "setdefault"); by apply mbind_raise).
  rewrite (mbind_ok _ _ _ _ _ (update_write _ _ _)).
  set (cfg := Dict.setdefault "license_files" DEFAULT_LICENSE_FILES dd).
  assert (Hcfg : deref (rebind r (VDict cfg)) (write r (VDict cfg) w)
                 = (Ok (VDict cfg), write r (VDict cfg) w)).
  { rewrite deref_content. f_equal. f_equal. apply content_write.
    rewrite Hr. eauto. }
  rewrite (mbind_ok _ _ _ _ _ Hcfg). cbv zeta.
  apply promote_loop. unfold dynamic_keys.
  intros k. destruct (str_in "license" names); [|done].
  by intros [_ ?]%filter_In.
Qed.

(** ** The log is written, never read

    Two worlds with the same document and the same working directory give
    the same outcome and are left with the same document and the same
    working directory. *)

Section Blind.

Lemma blind_mret {A} (a : A) : blind (mret a).
Proof. by intros w w' H. Qed.

Lemma blind_raise {A} (e : exn) : blind (@raise A e).
Proof. by intros w w' H. Qed.

Lemma blind_lift {A} (r : result A) : blind (lift r).
Proof. by intros w w' H. Qed.

Lemma blind_warn (msg : string) : blind (warn msg).
Proof. by intros w w' H. Qed.

Lemma blind_deref (r : ref) : blind (deref r).
Proof.
  intros w w' [Hd Hc]. split; [|done]. destruct r; simpl; [done|]. by rewrite Hd.
Qed.

Lemma blind_update (r : ref) (v : value) : blind (update r v).
Proof.
  destruct r; [apply blind_mret|]. intros w w' [Hd Hc].
  split; [done|]. split; simpl; [by rewrite Hd|done].
Qed.

Lemma blind_mbind {A B} (m : M A) (k : A → M B) :
  blind m → (∀ a, blind (k a)) → blind (mbind m k).
Proof.
  intros Hm Hk w w' H. unfold mbind. destruct (Hm w w' H) as [Hr Hw].
  destruct (m w) as [[a|e] w1], (m w') as [[a'|e'] w1']; simpl in *; try done.
  - injection Hr as <-. by apply Hk.
  - by injection Hr as <-.
Qed.

Lemma blind_for_each {S X} (step : S → X → M S) (xs : list X) (s : S) :
  (∀ s x, blind (step s x)) → blind (for_each step xs s).
Proof.
  intros Hstep. revert s. induction xs as [|x xs IH]; intros s; simpl.
  - apply blind_mret.
  - apply blind_mbind; [apply Hstep|apply IH].
Qed.

Lemma blind_for_refs {S} (step : S → string → value → M S)
    (items : list (string * ref)) (s : S) :
  (∀ s k v, blind (step s k v)) → blind (for_refs step items s).
Proof.
  intros Hstep. revert s. induction items as [|[k r] items IH]; intros s; simpl.
  - apply blind_mret.
  - apply blind_mbind; [apply blind_deref|]. intros v.
    apply blind_mbind; [apply Hstep|apply IH].
Qed.

Ltac blind_step :=
  first
    [ apply blind_mret | apply blind_raise | apply blind_lift | apply blind_warn
    | apply blind_deref | apply blind_update
    | apply blind_mbind; [|intros ?]
    | apply blind_for_each; intros ? ?
    | apply blind_for_refs; intros ? ? ?
    | match goal with
      | |- blind (match ?x with _ => _ end) => destruct x
      end ].

Lemma blind_ref_get r k dflt : blind (ref_get r k dflt).
Proof. unfold ref_get. repeat blind_step. Qed.

Lemma blind_ref_items r : blind (ref_items r).
Proof. unfold ref_items. repeat blind_step. Qed.

Lemma blind__copy_command_options env pyproject dist :
  blind (_copy_command_options env pyproject dist).
Proof.
  unfold _copy_command_options.
  repeat (apply blind_mbind; [first [apply blind_ref_get | apply blind_deref]|intros ?]).
  apply blind_mbind.
  { unfold _valid_command_options, _load_ep. repeat blind_step. }
  intros valid_options.
  repeat (apply blind_mbind; [first [apply blind_ref_get | apply blind_deref]|intros ?]).
  unfold _copy_command, _copy_option. repeat blind_step.
Qed.

Lemma blind_chdir env target : blind (chdir env target).
Proof.
  intros w w' [Hd Hc]. unfold chdir. rewrite Hc.
  by destruct (os_chdir env (cwd w') target).
Qed.

Lemma blind_run_hook hook dist : blind (run_hook hook dist).
Proof.
  intros w w' [Hd Hc]. unfold run_hook. rewrite Hc.
  by destruct (hook dist (cwd w')).
Qed.

Lemma blind_try_finally {A} (body : M A) (cleanup : M unit) :
  blind body → blind cleanup → blind (try_finally body cleanup).
Proof.
  intros Hb Hc w w' H. unfold try_finally. destruct (Hb w w' H) as [Hr Hw].
  destruct (body w) as [r w1], (body w') as [r' w1']. simpl in *. subst r'.
  destruct (Hc w1 w1' Hw) as [Hr' Hw'].
  destruct (cleanup w1) as [[[]|e] w2], (cleanup w1') as [[[]|e'] w2'];
    simpl in *; try done.
  by injection Hr' as <-.
Qed.

Lemma blind_apply_finalize env dist root_dir :
  blind (apply_finalize env dist root_dir).
Proof.
  unfold apply_finalize. apply blind_mbind.
  { intros w w' [Hd Hc]. unfold getcwd. simpl. by rewrite Hc. }
  intros current_directory.
  apply blind_mbind; [apply blind_chdir|]. intros _.
  apply blind_try_finally; [|apply blind_chdir].
  apply blind_mbind; [apply blind_run_hook|]. intros ?. apply blind_run_hook.
Qed.
End Blind.

(** ** The pass on a document that has its two tables *)

Lemma copy_of_keys (path : list string) (p : dict) :
  map (λ kv, (kv.1, child (Shared ["project"]) kv.1 kv.2)) p = copy_of (Dict.keys p).
Proof. unfold copy_of, Dict.keys. rewrite map_map. done. Qed.

Lemma apply_tables_shaped env dist root_dir w ks :
  shaped (document w) ks →
  apply_tables env dist (Shared []) root_dir w
  = mbind (_unify_entry_points env (copy_of ks))
      (λ table,
         mbind (_dynamic_license env table (Shared ["tool"; "setuptools"]))
           (apply_loops env dist root_dir (Shared ["tool"; "setuptools"]))) w.
Proof.
  intros (d & t & vs & p & Hdoc & Ht & Hs & Hp & <-). unfold apply_tables.
  rewrite (mbind_ok _ _ w (Shared ["tool"]) w).
  2:{ unfold ref_get, mbind, deref. simpl. by rewrite Hdoc, Ht. }
  rewrite (mbind_ok _ _ w (Shared ["tool"; "setuptools"]) w).
  2:{ unfold ref_get, mbind, deref. simpl. rewrite Hdoc. simpl. rewrite Ht.
      simpl. by rewrite Hs. }
  rewrite (mbind_ok _ _ w (Shared ["project"]) w).
  2:{ unfold ref_get, mbind, deref. simpl. by rewrite Hdoc, Hp. }
  rewrite (mbind_ok _ _ w (copy_of (Dict.keys p)) w).
  2:{ unfold ref_copy, mbind, deref. simpl. rewrite Hdoc. simpl. rewrite Hp.
      simpl. unfold mret. do 2 f_equal. apply (copy_of_keys []). }
  done.
Qed.

Lemma apply_tables_shape env dist root_dir w dist' w' :
  apply_tables env dist (Shared []) root_dir w = (Ok dist', w') →
  ∃ ks, shaped (document w) ks.
Proof.
  intros Happly.
  destruct (doc_get ["project"] (document w)) as [vp|] eqn:Hp.
  2:{ destruct (apply_tables_needs_tables env dist root_dir w (or_introl Hp))
        as (e & He & _). by rewrite Happly in He. }
  destruct (doc_get ["tool"; "setuptools"] (document w)) as [vs|] eqn:Hs.
  2:{ destruct (apply_tables_needs_tables env dist root_dir w (or_intror Hs))
        as (e & He & _). by rewrite Happly in He. }
  simpl in Hp, Hs.
  destruct (document w) as [| | | | | |d| |] eqn:Hdoc; try done.
  destruct (Dict.get "tool" d) as [[| | | | | |t| |]|] eqn:Ht; try done.
  destruct (Dict.get "setuptools" t) as [vs'|] eqn:Hs'; [|done].
  destruct (Dict.get "project" d) as [vp'|] eqn:Hp'; [|done].
  injection Hp as ->. injection Hs as ->.
  destruct vp as [| | | | | |p| |];
    try (exfalso; revert Happly; unfold apply_tables;
         rewrite (mbind_ok _ _ w (Shared ["tool"]) w)
           by (unfold ref_get, mbind, deref; simpl; by rewrite Hdoc, Ht);
         rewrite (mbind_ok _ _ w (Shared ["tool"; "setuptools"]) w)
           by (unfold ref_get, mbind, deref; simpl; rewrite Hdoc; simpl;
               rewrite Ht; simpl; by rewrite Hs');
         rewrite (mbind_ok _ _ w (Shared ["project"]) w)
           by (unfold ref_get, mbind, deref; simpl; by rewrite Hdoc, Hp');
         unfold mbind at 1, ref_copy, mbind, deref; simpl; rewrite Hdoc; simpl;
         rewrite Hp'; simpl; discriminate).
  exists (Dict.keys p), d, t, vs, p. done.
Qed.

Lemma In_keys_get {V} k (d : list (string * V)) :
  In k (Dict.keys d) → is_Some (Dict.get k d).
Proof.
  induction d as [|[k' v] d IH]; [done|]. simpl.
  destruct (String.eqb k k') eqn:Hk; [eauto|].
  intros [->|Hin]; [by rewrite String.eqb_refl in Hk|by apply IH].
Qed.

(** A write to an object of the project table, or to the [dynamic] object
    of the tool table, leaves the document its shape. *)
Lemma shaped_write_project doc ks a v :
  shaped doc ks → shaped (doc_set ["project"; a] v doc) ks.
Proof.
  intros (d & t & vs & p & -> & Ht & Hs & Hp & Hks). simpl. rewrite Hp.
  destruct (Dict.get a p) eqn:Ha.
  - exists (Dict.replace "project" (VDict (Dict.replace a v p)) d), t, vs,
      (Dict.replace a v p).
    rewrite get_replace_ne, get_replace_eq, Hp, keys_replace by done. done.
  - exists (Dict.replace "project" (VDict p) d), t, vs, p.
    rewrite get_replace_ne, get_replace_eq, Hp by done. done.
Qed.

Lemma shaped_write_dynamic doc ks v :
  shaped doc ks → shaped (doc_set ["tool"; "setuptools"; "dynamic"] v doc) ks.
Proof.
  intros (d & t & vs & p & -> & Ht & Hs & Hp & Hks). simpl. rewrite Ht, Hs.
  set (vs' := match vs with VDict _ => _ | _ => vs end).
  exists (Dict.replace "tool" (VDict (Dict.replace "setuptools" vs' t)) d),
    (Dict.replace "setuptools" vs' t), vs', p.
  split; [done|]. split; [by rewrite get_replace_eq, Ht|].
  split; [by rewrite get_replace_eq, Hs|].
  split; [|done]. by rewrite get_replace_ne.
Qed.

Lemma shaped_write_entry_points w ks groups :
  shaped (document w) ks →
  shaped (document (write (entry_points_ref ks) groups w)) ks.
Proof.
  unfold entry_points_ref. destruct (alias ks); [|done]. apply shaped_write_project.
Qed.

(** ** The preprocessing, run again on the document it has left *)

Lemma unify_again env ks groups table w' values :
  unify_outcome env values ks = Some (groups, table) →
  (∀ k, In k (unify_items ks) → lookup w' k = values k) →
  (∀ a, alias ks = Some a → lookup w' a = groups) →
  _unify_entry_points env (copy_of ks) w' = (Ok table, w').
Proof.
  intros Hout Hitems Halias.
  pose proof (unify_at env ks w') as Hat.
  rewrite (unify_outcome_again env values (lookup w') ks groups table) in Hat by done.
  rewrite Hat. f_equal. unfold entry_points_ref.
  destruct (alias ks) as [a|] eqn:Ha; [|done].
  rewrite <- (Halias a eq_refl).
  apply (write_content (Shared ["project"; a])).
Qed.

Lemma dynamic_outcome_again env declared s table cfg table' :
  dynamic_outcome env declared (VDict s) table = Some (cfg, table') →
  dynamic_outcome env declared (VDict (Dict.replace "dynamic" cfg s)) table
  = Some (cfg, table').
Proof.
  unfold dynamic_outcome.
  destruct (let* names := iterate declared in normalised_keys names)%res
    as [names|]; [|done].
  destruct (Dict.get "dynamic" s) as [v|] eqn:Hd.
  - rewrite get_replace_eq, Hd. simpl.
    destruct v as [| | | | | |dd| |]; try done.
    intros [= <- <-]. simpl.
    assert (Hset : ∀ d : dict, Dict.mem "license_files" d = true →
              Dict.setdefault "license_files" DEFAULT_LICENSE_FILES d = d).
    { intros d Hm. unfold Dict.setdefault. by rewrite Hm. }
    rewrite Hset; [done|].
    unfold Dict.setdefault. destruct (Dict.mem "license_files" dd) eqn:Hm; [done|].
    unfold Dict.mem in *. rewrite get_app. by destruct (Dict.get "license_files" dd).
  - rewrite replace_absent by done. by rewrite Hd.
Qed.

Lemma dynamic_again env declared s table cfg table' path w' :
  dynamic_outcome env declared (VDict s) table = Some (cfg, table') →
  content (default (Local (VList [])) (Dict.get "dynamic" table)) w' = declared →
  content (Shared path) w' = VDict (Dict.replace "dynamic" cfg s) →
  _dynamic_license env table (Shared path) w' = (Ok table', w').
Proof.
  intros Hout Hdeclared Htool.
  pose proof (dynamic_at env table path w') as Hat. cbv zeta in Hat.
  rewrite Hdeclared, Htool, (dynamic_outcome_again _ _ _ _ _ _ Hout) in Hat.
  rewrite Hat. f_equal. unfold dynamic_cfg_ref.
  destruct (Dict.get "dynamic" (Dict.replace "dynamic" cfg s)) as [v|] eqn:Hd;
    [|done].
  assert (Hc : content (Shared (path ++ ["dynamic"])) w' = cfg).
  { unfold content in *. rewrite doc_get_app.
    destruct (doc_get path (document w')) as [v0|]; [|done]. simpl in Htool.
    subst v0. rewrite Hd. rewrite get_replace_eq in Hd.
    destruct (Dict.get "dynamic" s); [by injection Hd as <-|done]. }
  rewrite <- Hc at 1. apply write_content.
Qed.

Lemma doc_get_set_child path k v d s :
  doc_get path d = Some (VDict s) →
  doc_get path (doc_set (path ++ [k]) v d) = Some (VDict (Dict.replace k v s)).
Proof.
  revert d. induction path as [|k0 path IH]; intros d; simpl.
  - intros [= ->]. destruct (Dict.get k s) eqn:Hk; [done|].
    by rewrite replace_absent.
  - destruct d as [| | | | | |items| |]; try done.
    destruct (Dict.get k0 items) as [v0|] eqn:Hk0; [|done].
    intros H. simpl. rewrite get_replace_eq, Hk0. by apply IH.
Qed.

Lemma unify_outcome_loop env values ks groups table :
  unify_outcome env values ks = Some (groups, table) →
  ∃ project,
    loop_outcome values (unify_items ks)
      match alias ks with Some a => values a | None => VDict [] end
      (unify_items ks) = Some (groups, project)
    ∧ ∀ k, k ≠ "entry-points" → Dict.get k table = Dict.get k (copy_of project).
Proof.
  unfold unify_outcome.
  destruct (loop_outcome _ _ _ _) as [[groups0 project]|]; [|done].
  intros H. exists project.
  destruct (truthy groups0); [|by injection H as <- <-].
  destruct groups0; try done.
  destruct (format_groups env items); [|done]. injection H as <- <-.
  split; [done|]. intros k Hk. unfold Dict.set.
  destruct (Dict.mem "entry-points" (copy_of project)).
  - by rewrite get_replace_ne.
  - rewrite get_app. simpl. apply String.eqb_neq in Hk. rewrite Hk.
    by destruct (Dict.get k (copy_of project)).
Qed.


(** The preprocessing of [apply], run where a first run has left the
    document, returns the same project table and writes nothing new. *)
Lemma preprocess_again env ks w table wA table2 wB w' :
  _unify_entry_points env (copy_of ks) w = (Ok table, wA) →
  _dynamic_license env table (Shared ["tool"; "setuptools"]) wA = (Ok table2, wB) →
  shaped (document w) ks →
  document w' = document wB →
  _unify_entry_points env (copy_of ks) w' = (Ok table, w')
  ∧ _dynamic_license env table (Shared ["tool"; "setuptools"]) w' = (Ok table2, w')
  ∧ shaped (document w') ks
  ∧ cwd wB = cwd w.
Proof.
  intros Hunify Hdynamic Hshape Hdoc.
  pose proof (unify_at env ks w) as Hu.
  destruct (unify_outcome env (lookup w) ks) as [[groups tbl]|] eqn:Hout.
  2:{ destruct Hu as [x Hx]. by rewrite Hunify in Hx. }
  rewrite Hunify in Hu. injection Hu as -> ->.
  pose proof (dynamic_at env tbl ["tool"; "setuptools"]
                (write (entry_points_ref ks) groups w)) as Hd.
  cbv zeta in Hd.
  set (wA := write (entry_points_ref ks) groups w) in *.
  set (declared := content (default (Local (VList [])) (Dict.get "dynamic" tbl)) wA) in *.
  destruct (content (Shared ["tool"; "setuptools"]) wA) as [| | | | | |s| |] eqn:Htool;
    try (unfold dynamic_outcome in Hd;
         destruct (let* names := iterate declared in normalised_keys names)%res;
         destruct Hd as [x Hx]; by rewrite Hdynamic in Hx).
  destruct (dynamic_outcome env declared (VDict s) tbl) as [[cfg tbl2]|] eqn:Hdout.
  2:{ destruct Hd as [x Hx]. by rewrite Hdynamic in Hx. }
  rewrite Hdynamic in Hd. injection Hd as -> ->.
  set (rD := dynamic_cfg_ref ["tool"; "setuptools"] (VDict s)) in *.
  assert (HD : ∀ k, lookup (write rD cfg wA) k = lookup wA k).
  { intros k. unfold rD, dynamic_cfg_ref.
    destruct (Dict.get "dynamic" s); [|done].
    unfold lookup, write. simpl document. f_equal.
    by apply (doc_get_set_diverge [] "project" "tool" [k]
                ["setuptools"; "dynamic"]). }
  assert (Hlookup : ∀ k, lookup w' k = lookup wA k).
  { intros k. rewrite <- HD. unfold lookup. by rewrite Hdoc. }
  destruct (unify_outcome_loop _ _ _ _ _ Hout) as (project & Hloop & Hdyn).
  split; [|split; [|split]].
  - apply (unify_again env ks groups tbl w' (lookup w)); [done|..].
    + intros k Hk. rewrite Hlookup.
      apply (lookup_write_aside _ _ _ (unify_items ks)); [|done].
      apply aside_entry_points_ref.
    + intros a Ha. rewrite Hlookup. unfold wA, entry_points_ref. rewrite Ha.
      rewrite Ha in Hloop.
      apply (content_after (Shared ["project"; a]) w _ _ _ _ _ Hloop).
  - apply (dynamic_again env declared s tbl cfg tbl2); [done|..].
    + unfold declared. rewrite (Hdyn "dynamic"), get_copy_of by done.
      destruct (str_in "dynamic" project); [|done]. simpl.
      fold (lookup w' "dynamic"). fold (lookup wA "dynamic"). apply Hlookup.
    + unfold content. rewrite Hdoc. unfold rD, dynamic_cfg_ref.
      unfold content in Htool.
      destruct (doc_get ["tool"; "setuptools"] (document wA)) as [v0|] eqn:Hget;
        [|done].
      simpl in Htool. subst v0.
      destruct (Dict.get "dynamic" s) eqn:Hk.
      * unfold write. cbn [document].
        by rewrite (doc_get_set_child ["tool"; "setuptools"] "dynamic" cfg _ s).
      * unfold write. rewrite Hget. simpl. by rewrite replace_absent.
  - rewrite Hdoc. unfold rD, dynamic_cfg_ref.
    destruct (Dict.get "dynamic" s).
    + apply shaped_write_dynamic. by apply shaped_write_entry_points.
    + by apply shaped_write_entry_points.
  - unfold rD, dynamic_cfg_ref, wA, entry_points_ref.
    by destruct (Dict.get "dynamic" s), (alias ks).
Qed.

(** ** The pass, run twice *)

Lemma mbind_assoc {A B C} (m : M A) (f : A → M B) (k : B → M C) w :
  mbind (mbind m f) k w = mbind m (λ a, mbind (f a) k) w.
Proof. unfold mbind. destruct (m w) as [[a|e] w']; [done|done]. Qed.

Lemma apply_shaped env dist root_dir w ks :
  shaped (document w) ks →
  apply env dist root_dir w
  = mbind (_unify_entry_points env (copy_of ks))
      (λ table,
         mbind (_dynamic_license env table (Shared ["tool"; "setuptools"]))
           (apply_rest env dist root_dir)) w.
Proof.
  intros Hshape. unfold apply, mbind at 1.
  rewrite (apply_tables_shaped env dist root_dir w ks Hshape).
  unfold apply_rest, mbind.
  destruct (_unify_entry_points env (copy_of ks) w) as [[table|e] wA]; [|done].
  by destruct (_dynamic_license env table (Shared ["tool"; "setuptools"]) wA)
    as [[table2|e] wB].
Qed.

Lemma apply_shape env dist root_dir w dist' w' :
  apply env dist root_dir w = (Ok dist', w') → ∃ ks, shaped (document w) ks.
Proof.
  unfold apply, mbind at 1.
  destruct (apply_tables env dist (Shared []) root_dir w) as [[d1|e] wT] eqn:Ht;
    [|done].
  intros _. by eapply apply_tables_shape.
Qed.

Lemma blind_apply_rest env dist root_dir table :
  blind (apply_rest env dist root_dir table).
Proof.
  unfold apply_rest, apply_loops.
  apply blind_mbind.
  { apply blind_mbind.
    - apply blind_for_refs. intros. apply blind_lift.
    - intros ?. apply blind_mbind; [apply blind_ref_items|]. intros ?.
      apply blind_for_refs. intros. apply blind_lift. }
  intros ?. apply blind_mbind; [apply blind__copy_command_options|].
  intros ?. apply blind_apply_finalize.
Qed.

Lemma apply_finalize_document env dist root_dir w :
  document (apply_finalize env dist root_dir w).2 = document w.
Proof.
  unfold apply_finalize, mbind, getcwd, chdir at 1.
  destruct (os_chdir env (cwd w) root_dir) as [dir|]; [|done].
  unfold try_finally, run_hook. simpl.
  destruct (_finalize_requires env dist dir) as [[d1|e] dir1]; simpl.
  - destruct (_finalize_license_files env d1 dir1) as [r dir2]. unfold chdir. simpl.
    by destruct (os_chdir env dir2 (cwd w)).
  - unfold chdir. simpl. by destruct (os_chdir env dir1 (cwd w)).
Qed.

(** The rest of the pass leaves the document alone, and the working
    directory too when the process can go back to it. *)
Lemma apply_rest_world env dist root_dir table w :
  (∀ dir, os_chdir env dir (cwd w) = Some (cwd w)) →
  same_document w (apply_rest env dist root_dir table w).2.
Proof.
  intros Hback. unfold apply_rest.
  assert (Hrefl : ∀ w, same_document w w) by done.
  assert (Htrans : ∀ w1 w2 w3, same_document w1 w2 → same_document w2 w3 →
                               same_document w1 w3)
    by (unfold same_document; intros ??? [] []; split; congruence).
  assert (Hlog : ∀ w l, same_document w (with_log w l)) by done.
  assert (HQ : ∀ e, is_configuration_error e = false → True) by done.
  assert (Hloops : respects same_document (λ _, True)
                     (apply_loops env dist root_dir (Shared ["tool"; "setuptools"]) table)).
  { unfold apply_loops. apply respects_mbind; try assumption.
    - apply respects_for_refs; try assumption.
      intros. by apply respects_lift.
    - intros ?. apply respects_mbind; try assumption.
      + by apply respects_ref_items.
      + intros ?. apply respects_for_refs; try assumption.
        intros. by apply respects_lift. }
  unfold mbind. destruct (Hloops w) as [[Hd1 Hc1] _].
  destruct (apply_loops _ _ _ _ _ w) as [[d1|e] w1]; [|done]. simpl in Hd1, Hc1.
  assert (Hcopy : respects same_document (λ _, True)
                    (_copy_command_options env (Shared []) d1)).
  { by apply respects__copy_command_options. }
  destruct (Hcopy w1) as [[Hd2 Hc2] _].
  destruct (_copy_command_options env (Shared []) d1 w1) as [[d2|e] w2];
    [|split; simpl in *; congruence].
  simpl in Hd2, Hc2. split.
  - rewrite apply_finalize_document. congruence.
  - rewrite apply_finalize_restores; [congruence|].
    intros dir. rewrite Hc2, Hc1. apply Hback.
Qed.

(** C9: applying the pass to a document, and then again to the same
    document with a model as fresh as the first, gives the same model. The
    second run starts in the world the first one has left (the caller's
    document as the first run left it, the log longer), from a working
    directory the process can go back to. *)
Theorem apply_twice_gives_the_same_model (env : Env) (dist : Distribution)
    (root_dir : string) (w w1 : World) (model : Distribution) :
  (∀ dir, os_chdir env dir (cwd w) = Some (cwd w)) →
  apply env dist root_dir w = (Ok model, w1) →
  ∃ w2, apply env dist root_dir w1 = (Ok model, w2).
Proof.
  intros Hback Hfirst.
  destruct (apply_shape _ _ _ _ _ _ Hfirst) as [ks Hshape].
  rewrite (apply_shaped _ _ _ _ ks Hshape) in Hfirst. unfold mbind at 1 in Hfirst.
  destruct (_unify_entry_points env (copy_of ks) w) as [[table|e] wA] eqn:Hunify;
    [|done].
  unfold mbind at 1 in Hfirst.
  destruct (_dynamic_license env table (Shared ["tool"; "setuptools"]) wA)
    as [[table2|e] wB] eqn:Hdynamic; [|done].
  assert (Hcwd : cwd wB = cwd w).
  { by destruct (preprocess_again env ks w table wA table2 wB wB Hunify Hdynamic Hshape
                   eq_refl) as (_ & _ & _ & ?). }
  assert (Hworld : same_document wB w1).
  { pose proof (apply_rest_world env dist root_dir table2 wB) as Hrest.
    rewrite Hfirst in Hrest. apply Hrest. intros dir. rewrite Hcwd. apply Hback. }
  destruct Hworld as [Hdoc1 Hcwd1].
  destruct (preprocess_again env ks w table wA table2 wB w1 Hunify Hdynamic Hshape Hdoc1)
    as (Hunify' & Hdynamic' & Hshape' & _).
  rewrite (apply_shaped _ _ _ _ ks Hshape').
  rewrite (mbind_ok _ _ _ _ _ Hunify'), (mbind_ok _ _ _ _ _ Hdynamic').
  destruct (blind_apply_rest env dist root_dir table2 wB w1) as [Hsame _].
  { split; congruence. }
  rewrite Hfirst in Hsame. simpl in Hsame.
  destruct (apply_rest env dist root_dir table2 w1) as [r w2].
  simpl in Hsame. subst r. by exists w2.
Qed.

Lemma apply_twice_gives_the_same_model_witness :
  ∃ w2,
    apply Sample.env Sample.fresh "/p"
      (apply Sample.env Sample.fresh "/p" (Sample.world shared_objects_document)).2
    = (Ok match (apply Sample.env Sample.fresh "/p"
                   (Sample.world shared_objects_document)).1 with
          | Ok model => model
          | Raise _ => Sample.fresh
          end, w2).
Proof.
  apply (apply_twice_gives_the_same_model Sample.env Sample.fresh "/p"
           (Sample.world shared_objects_document)).
  - intros dir. reflexivity.
  - vm_compute. reflexivity.
Defined.

(** The first run there returns a model. *)
Example first_run_returns_a_model :
  ∃ model,
    (apply Sample.env Sample.fresh "/p" (Sample.world shared_objects_document)).1
    = Ok model.
Proof. eexists. vm_compute. reflexivity. Qed.

(** ** The caller's document after the pass *)

(** C8 fails on the code: the pass returns a model and leaves the caller's
    document changed. The entry-points table of the project has gained the
    group [console_scripts] (the copy of the project table is shallow), and
    the [dynamic] table of the tool has gained [license_files] (from
    [setdefault]). *)
Theorem apply_writes_into_the_document :
  ∃ model w1,
    apply Sample.env Sample.fresh "/p" (Sample.world shared_objects_document)
    = (Ok model, w1)
    ∧ doc_get ["project"; "entry-points"; "console_scripts"] shared_objects_document
      = None
    ∧ doc_get ["project"; "entry-points"; "console_scripts"] (document w1)
      = Some (VDict [("a", VStr "m:f")])
    ∧ doc_get ["tool"; "setuptools"; "dynamic"; "license_files"]
        shared_objects_document = None
    ∧ doc_get ["tool"; "setuptools"; "dynamic"; "license_files"] (document w1)
      = Some DEFAULT_LICENSE_FILES
    ∧ document w1 ≠ shared_objects_document.
Proof.
  eexists _, _. split; [vm_compute; reflexivity|].
  repeat split; try (vm_compute; reflexivity).
  vm_compute. discriminate.
Qed.

(** ** The dynamic license without a [dynamic] table of the tool *)






Section DynamicLicense.
Context (env : Env) (w : World) (d t p : dict).
Context (Hdoc : document w = VDict d).
Context (Hproject : Dict.get "project" d = Some (VDict p)).
Context (Hdynamic : Dict.get "dynamic" p = Some (VList [VStr "license"])).
Context (Htool : Dict.get "tool" d = Some (VDict t)).
Context (Hsetuptools : Dict.get "setuptools" t = Some (VDict [])).


End DynamicLicense.




(** There the pass returns a model, and with hooks that leave the
    distribution alone the patterns are still there at the end. *)
Example dynamic_license_on_the_sample :
  ∃ model w1,
    apply Sample.env Sample.fresh "/p" (Sample.world dynamic_license_document)
    = (Ok model, w1)
    ∧ metadata model !! "license_files" = Some DEFAULT_LICENSE_FILES.
Proof. eexists _, _. split; vm_compute; reflexivity. Qed.

(** * More of the module *)

(** ** Normal forms of keys *)

Lemma map_chars_map_chars f g s :
  PyStr.map_chars f (PyStr.map_chars g s) = PyStr.map_chars (λ c, f (g c)) s.
Proof. induction s as [|c s IH]; simpl; [done|]. by rewrite IH. Qed.

Lemma map_chars_ext f g s :
  (∀ c, f c = g c) → PyStr.map_chars f s = PyStr.map_chars g s.
Proof. intros H. induction s as [|c s IH]; simpl; [done|]. by rewrite H, IH. Qed.

Lemma json_compatible_key_chars key :
  json_compatible_key key = PyStr.map_chars normal_char key.
Proof.
  unfold json_compatible_key, PyStr.replace_char, PyStr.lower.
  by rewrite map_chars_map_chars.
Qed.

Lemma normal_char_normal c :
  normal_char (normal_char c) = normal_char c
  ∧ normal_char c ≠ "-"%char ∧ is_upper (normal_char c) = false.
Proof. destruct c as [[] [] [] [] [] [] [] []]; by vm_compute. Qed.

Lemma normal_char_insensitive c :
  normal_char (PyStr.lower_char c) = normal_char c
  ∧ normal_char (if Ascii.eqb c "_" then "-"%char else c) = normal_char c
  ∧ normal_char (if Ascii.eqb c "-" then "_"%char else c) = normal_char c.
Proof. destruct c as [[] [] [] [] [] [] [] []]; by vm_compute. Qed.

Lemma all_chars_map_chars P f s :
  (∀ c, P (f c) = true) → all_chars P (PyStr.map_chars f s) = true.
Proof. intros H. induction s as [|c s IH]; simpl; [done|]. by rewrite H, IH. Qed.

(** X1: [json_compatible_key] gives a normal form. Applying it twice is
    applying it once, and the result has no hyphen and no ASCII capital
    letter. *)
Theorem json_compatible_key_normal_form (key : string) :
  json_compatible_key (json_compatible_key key) = json_compatible_key key
  ∧ all_chars (λ c, negb (Ascii.eqb c "-") && negb (is_upper c))
      (json_compatible_key key) = true.
Proof.
  rewrite !json_compatible_key_chars. split.
  - rewrite map_chars_map_chars. apply map_chars_ext.
    intros c. apply normal_char_normal.
  - apply all_chars_map_chars. intros c.
    destruct (normal_char_normal c) as (_ & Hh & Hu).
    rewrite Hu. apply Ascii.eqb_neq in Hh. by rewrite Hh.
Qed.

(** X2: keys that differ by the case of their ASCII letters, or by hyphens
    against underscores, have the same normal form. *)
Theorem json_compatible_key_insensitive (key : string) :
  json_compatible_key (PyStr.lower key) = json_compatible_key key
  ∧ json_compatible_key (PyStr.replace_char "_" "-" key) = json_compatible_key key
  ∧ json_compatible_key (PyStr.replace_char "-" "_" key) = json_compatible_key key.
Proof.
  rewrite !json_compatible_key_chars.
  unfold PyStr.lower, PyStr.replace_char. rewrite !map_chars_map_chars.
  repeat split; apply map_chars_ext; intros c; apply normal_char_insensitive.
Qed.

(** ** Option names of a command *)

Lemma last_char_cons a s : last_char (String a s) ≠ None.
Proof.
  revert a. induction s as [|b s IH]; intros a; [done|].
  change (last_char (String a (String b s))) with (last_char (String b s)).
  apply IH.
Qed.

Section Strip.
Context (chars : list ascii).

Lemma lstrip_first c :
  first_char (PyStr.lstrip chars c) = None
  ∨ ∃ a, first_char (PyStr.lstrip chars c) = Some a ∧ PyStr.char_in a chars = false.
Proof.
  induction c as [|a s IH]; simpl; [by left|].
  destruct (PyStr.char_in a chars) eqn:Ha; [done|].
  right. by exists a.
Qed.

Lemma rstrip_cons a s :
  PyStr.rstrip chars (String a s) =
  match PyStr.rstrip chars s with
  | EmptyString => if PyStr.char_in a chars then EmptyString else String a EmptyString
  | r => String a r
  end.
Proof. done. Qed.

Lemma rstrip_last s :
  last_char (PyStr.rstrip chars s) = None
  ∨ ∃ a, last_char (PyStr.rstrip chars s) = Some a ∧ PyStr.char_in a chars = false.
Proof.
  induction s as [|a s IH]; [by left|].
  rewrite rstrip_cons.
  destruct (PyStr.rstrip chars s) as [|b r] eqn:Hr.
  - destruct (PyStr.char_in a chars) eqn:Ha; [by left|].
    right. by exists a.
  - right. destruct IH as [IH|IH]; [by apply last_char_cons in IH|].
    destruct IH as (x & Hx & Hin). exists x. split; [|done].
    change (last_char (String a (String b r))) with (last_char (String b r)).
    done.
Qed.

Lemma lstrip_last s a :
  last_char s = Some a → PyStr.char_in a chars = false →
  last_char (PyStr.lstrip chars s) = Some a.
Proof.
  intros Hl Ha. induction s as [|b s IH]; [done|].
  simpl PyStr.lstrip. destruct (PyStr.char_in b chars) eqn:Hb; [|done].
  destruct s as [|b' s].
  - simpl in Hl. congruence.
  - apply IH. exact Hl.
Qed.

Lemma lstrip_empty_last s :
  last_char s = None → PyStr.lstrip chars s = EmptyString.
Proof. destruct s as [|a s]; [done|]. intros H. by apply last_char_cons in H. Qed.

Lemma lstrip_fixed s :
  match first_char s with Some a => PyStr.char_in a chars = false | None => True end →
  PyStr.lstrip chars s = s.
Proof. destruct s as [|a s]; simpl; [done|]. by intros ->. Qed.

Lemma rstrip_fixed s :
  match last_char s with Some a => PyStr.char_in a chars = false | None => True end →
  PyStr.rstrip chars s = s.
Proof.
  induction s as [|a s IH]; [done|].
  intros H. rewrite rstrip_cons. destruct s as [|b s].
  - simpl in *. by rewrite H.
  - rewrite IH; [done|]. exact H.
Qed.

Lemma strip_ends s :
  match first_char (PyStr.strip chars s) with
  | Some a => PyStr.char_in a chars = false | None => True end
  ∧ match last_char (PyStr.strip chars s) with
    | Some a => PyStr.char_in a chars = false | None => True end.
Proof.
  unfold PyStr.strip. split.
  - destruct (lstrip_first (PyStr.rstrip chars s)) as [->|(a & -> & Ha)]; done.
  - destruct (rstrip_last s) as [Hn|(a & Hl & Ha)].
    + by rewrite (lstrip_empty_last _ Hn).
    + by rewrite (lstrip_last _ _ Hl Ha).
Qed.

Lemma strip_strip s :
  PyStr.strip chars (PyStr.strip chars s) = PyStr.strip chars s.
Proof.
  destruct (strip_ends s) as [Hf Hl].
  unfold PyStr.strip at 1. rewrite (rstrip_fixed _ Hl). by apply lstrip_fixed.
Qed.

Lemma all_chars_lstrip P s :
  all_chars P s = true → all_chars P (PyStr.lstrip chars s) = true.
Proof.
  induction s as [|a s IH]; [done|]. simpl.
  intros H. apply andb_true_iff in H as [Ha Hs].
  destruct (PyStr.char_in a chars); [by apply IH|].
  simpl. by rewrite Ha, Hs.
Qed.

Lemma all_chars_rstrip P s :
  all_chars P s = true → all_chars P (PyStr.rstrip chars s) = true.
Proof.
  induction s as [|a s IH]; [done|]. rewrite rstrip_cons.
  intros H. simpl in H. apply andb_true_iff in H as [Ha Hs].
  specialize (IH Hs).
  destruct (PyStr.rstrip chars s) as [|b r].
  - destruct (PyStr.char_in a chars); [done|]. simpl. by rewrite Ha.
  - change (all_chars P (String a (String b r)))
      with (P a && all_chars P (String b r)). by rewrite Ha, IH.
Qed.

Lemma strip_cons a s :
  PyStr.char_in a chars = true →
  PyStr.strip chars (String a s) = PyStr.strip chars s.
Proof.
  intros Ha. unfold PyStr.strip. rewrite rstrip_cons.
  destruct (PyStr.rstrip chars s) as [|b r]; [by rewrite Ha|].
  simpl. by rewrite Ha.
Qed.

Lemma rstrip_snoc a s :
  PyStr.char_in a chars = true →
  PyStr.rstrip chars (s +:+ String a EmptyString) = PyStr.rstrip chars s.
Proof.
  intros Ha. induction s as [|b s IH].
  - simpl. by rewrite Ha.
  - change (String b s +:+ String a EmptyString)
      with (String b (s +:+ String a EmptyString)).
    by rewrite !rstrip_cons, IH.
Qed.

End Strip.

Lemma map_chars_fixed f s :
  all_chars (λ c, Ascii.eqb (f c) c) s = true → PyStr.map_chars f s = s.
Proof.
  induction s as [|a s IH]; [done|]. simpl.
  intros H. apply andb_true_iff in H as [Ha Hs].
  apply Ascii.eqb_eq in Ha. by rewrite Ha, IH.
Qed.

Lemma map_chars_app f s t :
  PyStr.map_chars f (s +:+ t) = PyStr.map_chars f s +:+ PyStr.map_chars f t.
Proof. induction s as [|a s IH]; [done|]. simpl. by rewrite IH. Qed.

(** X3: the normal form of an option name. [_normalise_cmd_option_key]
    applied twice is applied once; its result neither begins nor ends with
    an underscore or an equals sign, and it has no hyphen and no ASCII
    capital letter. *)
Theorem _normalise_cmd_option_key_normal_form (name : string) :
  let key := _normalise_cmd_option_key name in
  _normalise_cmd_option_key key = key
  ∧ match first_char key with Some c => stripped_char c = false | None => True end
  ∧ match last_char key with Some c => stripped_char c = false | None => True end
  ∧ all_chars (λ c, negb (Ascii.eqb c "-") && negb (is_upper c)) key = true.
Proof.
  cbv zeta. unfold _normalise_cmd_option_key, stripped_char.
  set (chars := ["_"; "="]%char).
  destruct (strip_ends chars (json_compatible_key name)) as [Hf Hl].
  split; [|split; [done|split; [done|]]].
  - rewrite json_compatible_key_chars at 1.
    rewrite map_chars_fixed; [apply strip_strip|].
    unfold PyStr.strip. apply all_chars_lstrip, all_chars_rstrip.
    rewrite json_compatible_key_chars. apply all_chars_map_chars.
    intros c. apply Ascii.eqb_eq, normal_char_normal.
  - unfold PyStr.strip. apply all_chars_lstrip, all_chars_rstrip.
    rewrite json_compatible_key_chars. apply all_chars_map_chars. intros c.
    destruct (normal_char_normal c) as (_ & Hh & Hu).
    rewrite Hu. apply Ascii.eqb_neq in Hh. by rewrite Hh.
Qed.

(** X4: what the normal form of an option name forgets. A hyphen, an
    underscore or an equals sign in front of a name or behind it does not
    change the normal form: [--build-lib=], [build_lib] and [build-lib]
    name the same option. *)
Theorem _normalise_cmd_option_key_forgets (c : ascii) (name : string) :
  In c ["-"; "_"; "="]%char →
  _normalise_cmd_option_key (String c name) = _normalise_cmd_option_key name
  ∧ _normalise_cmd_option_key (name +:+ String c EmptyString)
    = _normalise_cmd_option_key name.
Proof.
  intros Hc.
  assert (Hs : PyStr.char_in (normal_char c) ["_"; "="]%char = true).
  { simpl in Hc. destruct Hc as [<-|[<-|[<-|[]]]]; by vm_compute. }
  unfold _normalise_cmd_option_key. rewrite !json_compatible_key_chars. split.
  - simpl. by apply strip_cons.
  - rewrite map_chars_app. simpl. unfold PyStr.strip. by rewrite rstrip_snoc.
Qed.

Lemma _normalise_cmd_option_key_forgets_witness :
  _normalise_cmd_option_key (String "=" "build-lib") = _normalise_cmd_option_key "build-lib"
  ∧ _normalise_cmd_option_key ("build-lib" +:+ String "=" EmptyString)
    = _normalise_cmd_option_key "build-lib".
Proof. apply (_normalise_cmd_option_key_forgets "=" "build-lib"). simpl. tauto. Defined.

(** ** One assignment *)






(** ** The license *)

(** X6: in a license table the file wins. When the table has a [file] key,
    the one-element list of that file becomes [license_files] of the
    metadata and nothing else is written, whether the table has a [text]
    or not. *)
Theorem license_file_wins (env : Env) (dist : Distribution) (d : dict)
    (file : value) (root_dir : string) :
  Dict.get "file" d = Some file →
  no_setter env "license_files" = true →
  _license env dist (VDict d) root_dir
  = Ok (with_metadata <["license_files" := VList [file]]> dist).
Proof.
  intros Hf Hs. unfold _license, Dict.mem, getitem. rewrite Hf. simpl.
  apply _set_config_metadata; [done|]. apply orb_true_r.
Qed.

Lemma license_file_wins_witness :
  _license Sample.env Sample.fresh
    (VDict [("text", VStr "MIT"); ("file", VStr "LICENSE.txt")]) "/p"
  = Ok (with_metadata <["license_files" := VList [VStr "LICENSE.txt"]]> Sample.fresh).
Proof.
  apply (license_file_wins Sample.env Sample.fresh
           [("text", VStr "MIT"); ("file", VStr "LICENSE.txt")]
           (VStr "LICENSE.txt") "/p"); reflexivity.
Defined.

(** X7: a license table with neither [file] nor [text] makes [_license]
    raise [KeyError] for [text]; no field is assigned. *)
Theorem license_table_without_file_and_text (env : Env) (dist : Distribution)
    (d : dict) (root_dir : string) :
  Dict.mem "file" d = false → Dict.mem "text" d = false →
  _license env dist (VDict d) root_dir = Raise (KeyError "text").
Proof.
  intros Hf Ht. unfold _license, getitem. rewrite Hf.
  unfold Dict.mem in Ht. by destruct (Dict.get "text" d).
Qed.

Lemma license_table_without_file_and_text_witness :
  _license Sample.env Sample.fresh (VDict [("name", VStr "MIT")]) "/p"
  = Raise (KeyError "text").
Proof.
  apply (license_table_without_file_and_text Sample.env Sample.fresh
           [("name", VStr "MIT")] "/p"); reflexivity.
Defined.

(** ** The readme *)

(** X8: in a readme table a text that is false in Python's sense (the empty
    string, for one) counts as no text at all: the translator does what it
    does on the table without its [text] key, reading the file. *)
Theorem readme_empty_text_is_no_text (env : Env) (dist : Distribution)
    (d : dict) (text : value) (root_dir : string) :
  Dict.get "text" d = Some text → truthy text = false →
  _long_description env dist (VDict d) root_dir
  = _long_description env dist (VDict (Dict.remove "text" d)) root_dir.
Proof.
  intros Ht Hfalse. unfold _long_description, getitem.
  rewrite Ht, Hfalse, get_remove_eq.
  by rewrite !get_remove_ne.
Qed.

Lemma readme_empty_text_is_no_text_witness :
  _long_description Sample.env Sample.fresh
    (VDict [("text", VStr ""); ("file", VStr "README.rst");
            ("content-type", VStr "text/x-rst")]) "/p"
  = _long_description Sample.env Sample.fresh
      (VDict (Dict.remove "text"
                [("text", VStr ""); ("file", VStr "README.rst");
                 ("content-type", VStr "text/x-rst")])) "/p".
Proof.
  apply (readme_empty_text_is_no_text Sample.env Sample.fresh
           [("text", VStr ""); ("file", VStr "README.rst");
            ("content-type", VStr "text/x-rst")] (VStr "") "/p"); reflexivity.
Defined.

(** ** Authors and maintainers *)

Lemma _people_loop_fails (env : Env) (persons : list value) (p : dict) :
  In (VDict p) persons → Dict.mem "name" p = false → Dict.mem "email" p = false →
  ∀ acc, ∃ e, _people_loop env persons acc = Raise e.
Proof.
  intros Hin Hn He. induction persons as [|x persons IH]; [done|].
  intros acc. cbn [_people_loop].
  destruct Hin as [->|Hin].
  - exists (KeyError "email"). destruct acc as [field email_field].
    unfold _people_step, getitem. rewrite Hn. simpl.
    unfold Dict.mem in He. by destruct (Dict.get "email" p).
  - destruct (_people_step env acc x) as [acc'|e]; simpl; [|eauto].
    by apply IH.
Qed.

(** X9: one person with neither a name nor an email spoils the whole list:
    [_people] raises and assigns nothing, neither the names nor the
    addresses of the persons before it. *)
Theorem person_without_name_and_email (env : Env) (kind : string)
    (dist : Distribution) (persons : list value) (p : dict)
    (root_dir : string) :
  In (VDict p) persons → Dict.mem "name" p = false → Dict.mem "email" p = false →
  ∃ e, _people env kind dist (VList persons) root_dir = Raise e.
Proof.
  intros Hin Hn He. unfold _people. simpl.
  destruct (_people_loop_fails env persons p Hin Hn He ([], [])) as [e ->].
  by exists e.
Qed.

Lemma person_without_name_and_email_witness :
  ∃ e, _people Sample.env "author" Sample.fresh
         (VList [VDict [("name", VStr "A")]; VDict [("role", VStr "x")]]) "/p"
       = Raise e.
Proof.
  apply (person_without_name_and_email Sample.env "author" Sample.fresh
           [VDict [("name", VStr "A")]; VDict [("role", VStr "x")]]
           [("role", VStr "x")] "/p"); [simpl; tauto|reflexivity|reflexivity].
Defined.

(** ** Project URLs *)




(** ** The dynamic license, in general *)

Lemma get_set {V : Type} (k k' : string) (v : V) (d : list (string * V)) :
  Dict.get k' (Dict.set k v d) = if String.eqb k k' then Some v else Dict.get k' d.
Proof.
  unfold Dict.set. destruct (Dict.mem k d) eqn:Hm.
  - destruct (String.eqb k k') eqn:E.
    + apply String.eqb_eq in E as <-. rewrite get_replace_eq.
      apply mem_true in Hm as [x ->]. done.
    + apply String.eqb_neq in E. by apply get_replace_ne.
  - rewrite get_app. unfold Dict.mem in Hm. simpl.
    rewrite (String.eqb_sym k' k).
    destruct (String.eqb k k') eqn:E.
    + apply String.eqb_eq in E as <-. by destruct (Dict.get k d).
    + by destruct (Dict.get k' d).
Qed.

Lemma get_setdefault {V : Type} (k k' : string) (v : V) (d : list (string * V)) :
  Dict.get k' (Dict.setdefault k v d)
  = match Dict.get k' d with
    | Some x => Some x
    | None => if String.eqb k k' then Some v else None
    end.
Proof.
  unfold Dict.setdefault. destruct (Dict.mem k d) eqn:Hm.
  - destruct (Dict.get k' d) eqn:Hg; [done|].
    destruct (String.eqb k k') eqn:E; [|done].
    apply String.eqb_eq in E as <-. apply mem_true in Hm as [x Hx]. congruence.
  - rewrite get_app. simpl. by rewrite (String.eqb_sym k' k).
Qed.

Lemma dynamic_license_outcome (env : Env) (table : list (string * ref))
    (path : list string) (w : World) (s dd : dict) (names : list string) :
  content (Shared path) w = VDict s →
  default (VDict []) (Dict.get "dynamic" s) = VDict dd →
  declared_dynamic table w = Ok names →
  let cfg := Dict.setdefault "license_files" DEFAULT_LICENSE_FILES dd in
  _dynamic_license env table (Shared path) w
  = (Ok (promote cfg (dynamic_keys env names cfg) table),
     write (dynamic_cfg_ref path (VDict s)) (VDict cfg) w).
Proof.
  intros Hs Hdd Hnames cfg.
  pose proof (dynamic_at env table path w) as H. cbv zeta in H.
  unfold dynamic_outcome in H. unfold declared_dynamic in Hnames.
  rewrite Hnames, Hs, Hdd in H. exact H.
Qed.

(** X11: with [license] among the dynamic fields, the directives of the
    tool reach the project table. [license_files] of the returned table is
    the one of [tool.setuptools.dynamic] when it has one and the default
    patterns otherwise; [license] is the directive of that table when it
    has one and what the project table held otherwise; the other keys are
    as they were. No exception is raised. *)
Theorem dynamic_license_promotes_the_directives (env : Env)
    (table : list (string * ref)) (path : list string) (w : World)
    (s dd : dict) (names : list string) :
  content (Shared path) w = VDict s →
  default (VDict []) (Dict.get "dynamic" s) = VDict dd →
  declared_dynamic table w = Ok names →
  str_in "license" names = true →
  ∃ table' w',
    _dynamic_license env table (Shared path) w = (Ok table', w')
    ∧ Dict.get "license_files" table'
      = Some (Local (default DEFAULT_LICENSE_FILES (Dict.get "license_files" dd)))
    ∧ Dict.get "license" table'
      = match Dict.get "license" dd with
        | Some v => Some (Local v)
        | None => Dict.get "license" table
        end
    ∧ ∀ k, k ≠ "license" → k ≠ "license_files" →
        Dict.get k table' = Dict.get k table.
Proof.
  intros Hs Hdd Hnames Hlic.
  rewrite (dynamic_license_outcome env table path w s dd names Hs Hdd Hnames).
  eexists _, _. split; [done|].
  set (cfg := Dict.setdefault "license_files" DEFAULT_LICENSE_FILES dd).
  assert (Hlf : Dict.get "license_files" cfg
                = Some (default DEFAULT_LICENSE_FILES (Dict.get "license_files" dd))).
  { unfold cfg. rewrite get_setdefault. by destruct (Dict.get "license_files" dd). }
  assert (Hl : Dict.get "license" cfg = Dict.get "license" dd).
  { unfold cfg. rewrite get_setdefault. by destruct (Dict.get "license" dd). }
  assert (Hmlf : Dict.mem "license_files" cfg = true).
  { unfold Dict.mem. by rewrite Hlf. }
  assert (Hj1 : json_compatible_key "license" = "license") by reflexivity.
  assert (Hj2 : json_compatible_key "license_files" = "license_files") by reflexivity.
  unfold dynamic_keys. rewrite Hlic.
  destruct (license_iterates_first env); cbn [List.filter]; rewrite Hmlf;
    unfold Dict.mem; rewrite Hl;
    destruct (Dict.get "license" dd) as [vl|] eqn:Hdl;
    cbn [promote fold_left]; rewrite ?Hlf, ?Hl, ?Hj1, ?Hj2;
    (split; [rewrite ?get_set; simpl; done|]);
    (split; [rewrite ?get_set; simpl; done|]);
    intros k Hk1 Hk2; rewrite ?get_set;
    apply String.eqb_neq in Hk1, Hk2;
    rewrite String.eqb_sym in Hk1; rewrite String.eqb_sym in Hk2;
    by rewrite ?Hk1, ?Hk2.
Qed.

Lemma dynamic_license_promotes_the_directives_witness :
  ∃ table' w',
    _dynamic_license Sample.env (copy_of ["name"; "dynamic"])
      (Shared ["tool"; "setuptools"]) (Sample.world license_directive_document)
    = (Ok table', w')
    ∧ Dict.get "license_files" table'
      = Some (Local (default DEFAULT_LICENSE_FILES
                       (Dict.get "license_files"
                          [("license", VDict [("file", VStr "LICENSE.txt")])])))
    ∧ Dict.get "license" table'
      = match Dict.get "license" [("license", VDict [("file", VStr "LICENSE.txt")])] with
        | Some v => Some (Local v)
        | None => Dict.get "license" (copy_of ["name"; "dynamic"])
        end
    ∧ ∀ k, k ≠ "license" → k ≠ "license_files" →
        Dict.get k table' = Dict.get k (copy_of ["name"; "dynamic"]).
Proof.
  apply (dynamic_license_promotes_the_directives Sample.env
           (copy_of ["name"; "dynamic"]) ["tool"; "setuptools"]
           (Sample.world license_directive_document)
           [("dynamic", VDict [("license", VDict [("file", VStr "LICENSE.txt")])])]
           [("license", VDict [("file", VStr "LICENSE.txt")])]
           ["license"]); reflexivity.
Defined.

(** X12: without [license] among the dynamic fields the project table is
    returned as it came, yet the caller's [dynamic] table of the tool has a
    [license_files] entry afterwards: its own when it had one, the default
    patterns otherwise. *)
Theorem dynamic_license_not_declared (env : Env) (table : list (string * ref))
    (path : list string) (w : World) (s dd : dict) (names : list string) :
  content (Shared path) w = VDict s →
  Dict.get "dynamic" s = Some (VDict dd) →
  declared_dynamic table w = Ok names →
  str_in "license" names = false →
  ∃ w',
    _dynamic_license env table (Shared path) w = (Ok table, w')
    ∧ doc_get (path ++ ["dynamic"]) (document w')
      = Some (VDict (Dict.setdefault "license_files" DEFAULT_LICENSE_FILES dd))
    ∧ cwd w' = cwd w ∧ log w' = log w.
Proof.
  intros Hs Hd Hnames Hlic.
  assert (Hdd : default (VDict []) (Dict.get "dynamic" s) = VDict dd)
    by by rewrite Hd.
  rewrite (dynamic_license_outcome env table path w s dd names Hs Hdd Hnames).
  eexists. split.
  - unfold dynamic_keys. rewrite Hlic. done.
  - unfold dynamic_cfg_ref. rewrite Hd. simpl. split; [|done].
    apply doc_get_set_same. rewrite doc_get_app.
    unfold content in Hs.
    destruct (doc_get path (document w)) as [v|]; [|done].
    simpl in Hs. subst v. rewrite Hd. eauto.
Qed.

Lemma dynamic_license_not_declared_witness :
  ∃ w',
    _dynamic_license Sample.env (copy_of ["name"; "dynamic"])
      (Shared ["tool"; "setuptools"]) (Sample.world dynamic_version_document)
    = (Ok (copy_of ["name"; "dynamic"]), w')
    ∧ doc_get (["tool"; "setuptools"] ++ ["dynamic"]) (document w')
      = Some (VDict (Dict.setdefault "license_files" DEFAULT_LICENSE_FILES
                       [("version", VDict [("attr", VStr "pkg.__version__")])]))
    ∧ cwd w' = cwd (Sample.world dynamic_version_document)
    ∧ log w' = log (Sample.world dynamic_version_document).
Proof.
  apply (dynamic_license_not_declared Sample.env (copy_of ["name"; "dynamic"])
           ["tool"; "setuptools"] (Sample.world dynamic_version_document)
           [("dynamic", VDict [("version", VDict [("attr", VStr "pkg.__version__")])])]
           [("version", VDict [("attr", VStr "pkg.__version__")])]
           ["version"]); reflexivity.
Defined.

(** ** The entry points, in general *)

Lemma renaming_str (k : string) :
  Dict.get k renaming = None ∨ ∃ renamed, Dict.get k renaming = Some (VStr renamed).
Proof.
  unfold renaming. cbn [Dict.get].
  destruct (String.eqb k "scripts"); [right; eauto|].
  destruct (String.eqb k "gui_scripts"); [right; eauto|]. by left.
Qed.

Lemma str_in_without_eq (k k' : string) (ks : list string) :
  str_in k (without k' ks) = str_in k ks && negb (String.eqb k k').
Proof.
  destruct (String.eqb k k') eqn:E.
  - apply String.eqb_eq in E as ->. rewrite andb_false_r.
    apply not_true_is_false. rewrite str_in_In, In_without. tauto.
  - apply String.eqb_neq in E. rewrite andb_true_r. by apply str_in_without.
Qed.

Lemma without_absent (k : string) (ks : list string) :
  str_in k ks = false → without k ks = ks.
Proof.
  induction ks as [|k' ks IH]; [done|]. cbn [str_in existsb].
  intros H. apply orb_false_iff in H as [Hk Hks].
  unfold without in *. cbn [List.filter]. rewrite Hk. cbn [negb].
  f_equal. apply IH. exact Hks.
Qed.

(** What the loop of [_unify_entry_points] leaves of the project table. *)
Lemma loop_outcome_project (values : string → value) (items : list string) :
  ∀ groups project groups' project',
  loop_outcome values items groups project = Some (groups', project') →
  ∀ k, str_in k project'
       = str_in k project
         && negb (str_in k items && is_script k && truthy (values k)).
Proof.
  induction items as [|key items IH]; intros groups project groups' project' H k.
  - injection H as <- <-. cbn [str_in existsb]. by rewrite andb_true_r.
  - cbn [loop_outcome] in H. cbn [str_in existsb]. fold (str_in k items).
    assert (Hrest : loop_outcome values items groups project = Some (groups', project') →
                    is_script key && truthy (values key) = false →
                    str_in k project'
                    = str_in k project
                      && negb ((String.eqb k key || str_in k items)
                               && is_script k && truthy (values k))).
    { intros Hloop Hno. rewrite (IH _ _ _ _ Hloop k).
      destruct (String.eqb k key) eqn:E; [|done].
      apply String.eqb_eq in E as ->. cbn [orb].
      destruct (is_script key), (truthy (values key)); try discriminate;
        by rewrite ?andb_false_r. }
    unfold is_script in Hrest at 1. unfold Dict.mem in Hrest.
    destruct (renaming_str (json_compatible_key key)) as [Hr|[renamed Hr]];
      rewrite Hr in H, Hrest.
    + by apply Hrest.
    + destruct (truthy (values key)) eqn:Ht; [|by apply Hrest].
      destruct (str_in key project) eqn:Hin; [|done].
      destruct groups as [| | | | | |g| |]; try done.
      rewrite (IH _ _ _ _ H k), str_in_without_eq.
      destruct (String.eqb k key) eqn:E.
      * apply String.eqb_eq in E as ->. cbn [orb negb].
        unfold is_script, Dict.mem. rewrite Hr, Ht.
        by rewrite !andb_false_r.
      * cbn [orb negb]. by rewrite andb_true_r.
Qed.

Lemma loop_outcome_idle (values : string → value) (items : list string)
    (groups : value) (project : list string) :
  (∀ k, In k items → is_script k && truthy (values k) = false) →
  loop_outcome values items groups project = Some (groups, project).
Proof.
  induction items as [|key items IH]; [done|]. intros H.
  cbn [loop_outcome].
  assert (Hk := H key (or_introl eq_refl)).
  assert (Hrest : loop_outcome values items groups project = Some (groups, project)).
  { apply IH. intros k Hin. apply H. by right. }
  unfold is_script, Dict.mem in Hk.
  destruct (renaming_str (json_compatible_key key)) as [Hr|[renamed Hr]];
    rewrite Hr in *; [done|].
  simpl in Hk. by rewrite Hk.
Qed.

(** X13: a project table with neither [entry-points] nor [entry_points],
    and whose tables of scripts, if any, are empty, comes back from
    [_unify_entry_points] as it went in; the document is not touched, and
    nothing is raised. *)
Theorem unify_entry_points_nothing_to_do (env : Env) (ks : list string)
    (w : World) :
  str_in "entry-points" ks = false → str_in "entry_points" ks = false →
  (∀ k, In k ks → is_script k && truthy (lookup w k) = false) →
  _unify_entry_points env (copy_of ks) w = (Ok (copy_of ks), w).
Proof.
  intros H1 H2 Hidle.
  pose proof (unify_at env ks w) as H. unfold unify_outcome in H.
  assert (Hitems : unify_items ks = ks).
  { unfold unify_items. rewrite (without_absent "entry_points" ks H2).
    by apply without_absent. }
  assert (Halias : alias ks = None).
  { unfold alias. by rewrite H1, H2. }
  rewrite Hitems, Halias, loop_outcome_idle in H by done.
  cbn [truthy] in H. unfold entry_points_ref in H. by rewrite Halias in H.
Qed.

Lemma unify_entry_points_nothing_to_do_witness :
  _unify_entry_points Sample.env (copy_of ["name"; "dynamic"])
    (Sample.world dynamic_version_document)
  = (Ok (copy_of ["name"; "dynamic"]), Sample.world dynamic_version_document).
Proof.
  apply (unify_entry_points_nothing_to_do Sample.env ["name"; "dynamic"]
           (Sample.world dynamic_version_document)); [reflexivity..|].
  intros k [<-|[<-|[]]]; reflexivity.
Defined.

Lemma str_in_unify_items (k : string) (ks : list string) :
  str_in k (unify_items ks)
  = str_in k ks && negb (String.eqb k "entry_points")
    && negb (String.eqb k "entry-points").
Proof. unfold unify_items. by rewrite !str_in_without_eq. Qed.

(** X14: the keys that [_unify_entry_points] leaves in the project table.
    Apart from [entry-points] itself, the returned table has exactly the
    keys of the table it was given that are neither [entry_points] nor a
    table of scripts with something in it, and each still names the
    caller's object. An empty table of scripts stays under its own key. *)
Theorem unify_entry_points_leaves (env : Env) (ks : list string) (w : World)
    (table : list (string * ref)) (w' : World) :
  _unify_entry_points env (copy_of ks) w = (Ok table, w') →
  ∀ k, k ≠ "entry-points" →
    Dict.get k table
    = if str_in k ks && negb (String.eqb k "entry_points")
         && negb (is_script k && truthy (lookup w k))
      then Some (Shared ["project"; k]) else None.
Proof.
  intros Hrun k Hk.
  pose proof (unify_at env ks w) as H.
  destruct (unify_outcome env (lookup w) ks) as [[groups table0]|] eqn:Hout.
  2:{ destruct H as [x Hx]. rewrite Hrun in Hx. discriminate. }
  rewrite Hrun in H. injection H as -> _.
  destruct (unify_outcome_loop env _ _ _ _ Hout) as (project & Hloop & Hget).
  rewrite (Hget k Hk), get_copy_of.
  rewrite (loop_outcome_project _ _ _ _ _ _ Hloop k), str_in_unify_items.
  apply String.eqb_neq in Hk. rewrite Hk. cbn [negb]. rewrite !andb_true_r.
  destruct (str_in k ks); [|done].
  by destruct (String.eqb k "entry_points").
Qed.

Lemma unify_entry_points_leaves_witness :
  Dict.get "scripts" [("name", Shared ["project"; "name"]);
                      ("gui-scripts", Shared ["project"; "gui-scripts"]);
                      ("entry-points",
                       Local (VDict [("console_scripts", VList [VStr "a = m:f"])]))]
  = if str_in "scripts" ["name"; "scripts"; "gui-scripts"]
       && negb (String.eqb "scripts" "entry_points")
       && negb (is_script "scripts"
                && truthy (lookup (Sample.world scripts_document) "scripts"))
    then Some (Shared ["project"; "scripts"]) else None.
Proof.
  apply (unify_entry_points_leaves Sample.env ["name"; "scripts"; "gui-scripts"]
           (Sample.world scripts_document) _
           (_unify_entry_points Sample.env
              (copy_of ["name"; "scripts"; "gui-scripts"])
              (Sample.world scripts_document)).2).
  - reflexivity.
  - discriminate.
Defined.

Lemma format_groups_lines (env : Env) (groups formatted : dict) :
  format_groups env groups = Ok formatted →
  ∀ name lines, Dict.get name formatted = Some lines →
    ∃ group, Dict.get name groups = Some (VDict group)
      ∧ lines = VList (map (λ kv, VStr (fst kv +:+ " = " +:+ py_str env (snd kv)))
                           group).
Proof.
  revert formatted. induction groups as [|[n g] groups IH]; intros formatted H.
  - injection H as <-. done.
  - cbn [format_groups] in H.
    destruct (format_group env g) as [ls|] eqn:Hg; [|done]. simpl in H.
    destruct (format_groups env groups) as [others|]; [|done]. simpl in H.
    injection H as <-. intros name lines Hget. cbn [Dict.get] in *.
    destruct (String.eqb name n).
    + injection Hget as <-. destruct g; try done. injection Hg as <-. eauto.
    + by apply IH with others.
Qed.

(** X15: the [entry-points] that [_unify_entry_points] hands on. When the
    returned table has the key, what it names is an object of the pass, not
    the caller's table, and every group of it is the list of the lines
    [name = target] of the entries of a group that the function has
    collected; the groups collected are the caller's [entry-points] (or
    [entry_points]) table, as the function leaves it, when the project has
    one. *)
Theorem unify_entry_points_formats (env : Env) (ks : list string) (w : World)
    (table : list (string * ref)) (w' : World) (r : ref) :
  _unify_entry_points env (copy_of ks) w = (Ok table, w') →
  Dict.get "entry-points" table = Some r →
  ∃ groups formatted,
    r = Local (VDict formatted)
    ∧ (alias ks ≠ None → content (entry_points_ref ks) w' = VDict groups)
    ∧ ∀ name lines, Dict.get name formatted = Some lines →
        ∃ group, Dict.get name groups = Some (VDict group)
          ∧ lines = VList (map (λ kv, VStr (fst kv +:+ " = " +:+ py_str env (snd kv)))
                               group).
Proof.
  intros Hrun Hr.
  pose proof (unify_at env ks w) as H.
  destruct (unify_outcome env (lookup w) ks) as [[groups table0]|] eqn:Hout.
  2:{ destruct H as [x Hx]. rewrite Hrun in Hx. discriminate. }
  rewrite Hrun in H. injection H as -> ->.
  unfold unify_outcome in Hout.
  destruct (loop_outcome _ _ _ _) as [[groups0 project]|] eqn:Hloop; [|done].
  destruct (truthy groups0) eqn:Ht.
  - destruct groups0 as [| | | | | |g| |]; try done.
    destruct (format_groups env g) as [formatted|] eqn:Hf; [|done].
    injection Hout as <- <-. rewrite get_set, String.eqb_refl in Hr.
    injection Hr as <-. exists g, formatted. split; [done|]. split.
    + intros Ha. unfold entry_points_ref.
      destruct (alias ks) as [a|] eqn:Halias; [|done].
      unfold write, content. cbn [document].
      rewrite doc_get_set_same; [done|].
      destruct (doc_get ["project"; a] (document w)) eqn:Hd; [eauto|].
      exfalso. unfold lookup in Hloop. rewrite Hd in Hloop. simpl in Hloop.
      destruct (loop_outcome_groups _ _ _ _ _ _ Hloop) as [Heq|[g0 Hg0]]; done.
    + by apply format_groups_lines.
  - injection Hout as <- <-. rewrite get_copy_of in Hr.
    rewrite (loop_outcome_project _ _ _ _ _ _ Hloop), str_in_unify_items in Hr.
    rewrite String.eqb_refl in Hr. cbn [negb] in Hr.
    rewrite !andb_false_r in Hr. done.
Qed.

Lemma unify_entry_points_formats_witness :
  ∃ groups formatted,
    Local (VDict [("console_scripts", VList [VStr "a = m:f"])])
    = Local (VDict formatted)
    ∧ (alias ["name"; "scripts"; "gui-scripts"] ≠ None →
       content (entry_points_ref ["name"; "scripts"; "gui-scripts"])
         (_unify_entry_points Sample.env
            (copy_of ["name"; "scripts"; "gui-scripts"])
            (Sample.world scripts_document)).2
       = VDict groups)
    ∧ ∀ name lines, Dict.get name formatted = Some lines →
        ∃ group, Dict.get name groups = Some (VDict group)
          ∧ lines = VList (map (λ kv, VStr (fst kv +:+ " = "
                                            +:+ py_str Sample.env (snd kv)))
                               group).
Proof.
  apply (unify_entry_points_formats Sample.env ["name"; "scripts"; "gui-scripts"]
           (Sample.world scripts_document)
           [("name", Shared ["project"; "name"]);
            ("gui-scripts", Shared ["project"; "gui-scripts"]);
            ("entry-points",
             Local (VDict [("console_scripts", VList [VStr "a = m:f"])]))]
           (_unify_entry_points Sample.env
              (copy_of ["name"; "scripts"; "gui-scripts"])
              (Sample.world scripts_document)).2); reflexivity.
Defined.

(** ** The options that are known *)

Lemma _load_loop (eps : list EntryPoint)
    (valid_options : gmap string (gset string)) (w : World) :
  for_each (λ valid_options ep,
              mbind (_load_ep ep) (λ loaded,
                match loaded with
                | Some (cmd, cmd_class) =>
                    mret (add_command valid_options cmd cmd_class)
                | None => mret valid_options
                end))
           eps valid_options w
  = (Ok (fold_left (λ acc kv, add_command acc (fst kv) (snd kv))
           (flat_map (λ ep, match ep_load ep with
                            | inl cls => [(ep_name ep, cls)]
                            | inr _ => []
                            end) eps) valid_options),
     with_log w (log w ++
       flat_map (λ ep, match ep_load ep with
                       | inl _ => []
                       | inr (class_name, ex) =>
                           [(class_name +:+ " while trying to load entry-point "
                             +:+ ep_name ep) +:+ ": " +:+ ex]
                       end) eps)).
Proof.
  revert valid_options w. induction eps as [|ep eps IH]; intros valid_options w.
  - simpl. unfold mret, with_log. rewrite app_nil_r. by destruct w.
  - cbn [for_each flat_map]. unfold mbind at 1, mbind at 1, _load_ep at 1.
    destruct (ep_load ep) as [cls|[class_name ex]].
    + unfold mret at 1. unfold mret at 1. rewrite IH. done.
    + unfold mbind at 1, warn at 1, mret at 1. unfold mret at 1.
      rewrite IH. unfold with_log. simpl. by rewrite <- app_assoc.
Qed.

Lemma _valid_command_options_outcome (env : Env) (cmdclass : value)
    (w : World) :
  _valid_command_options env cmdclass w
  = match cmdclass with
    | VDict d => (Ok (known_options env d),
                  with_log w (log w ++ load_warnings env))
    | _ => (Raise (AttributeError "items"), w)
    end.
Proof.
  unfold _valid_command_options.
  destruct cmdclass as [| | | | | |d| |]; try done.
  unfold mbind at 1, mret at 1. unfold mbind at 1.
  rewrite _load_loop. unfold mret, known_options, loaded_commands, load_warnings.
  by rewrite fold_left_app.
Qed.


Lemma add_command_grows (valid_options : gmap string (gset string))
    (cmd : string) (cls : value) (c : string) (opts : gset string) :
  opts ⊆ default ∅ (valid_options !! c) →
  opts ⊆ default ∅ (add_command valid_options cmd cls !! c).
Proof.
  unfold add_command. intros H.
  destruct (decide (cmd = c)) as [->|Hne].
  - rewrite lookup_insert_eq. simpl. etrans; [exact H|apply union_subseteq_l].
  - by rewrite lookup_insert_ne.
Qed.

Lemma add_commands_grow (l : dict) (valid_options : gmap string (gset string))
    (c : string) (opts : gset string) :
  opts ⊆ default ∅ (valid_options !! c) →
  opts ⊆ default ∅ (fold_left (λ acc kv, add_command acc (fst kv) (snd kv))
                      l valid_options !! c).
Proof.
  revert valid_options. induction l as [|[cmd cls] l IH]; intros vo H; [done|].
  simpl. apply IH. by apply add_command_grows.
Qed.

Lemma add_commands_pool (l : dict) (valid_options : gmap string (gset string))
    (cmd : string) (cls : value) :
  In (cmd, cls) l →
  _normalise_cmd_options (user_options_of cls)
  ⊆ default ∅ (fold_left (λ acc kv, add_command acc (fst kv) (snd kv))
                 l valid_options !! cmd).
Proof.
  revert valid_options. induction l as [|[c0 cls0] l IH]; intros vo Hin; [done|].
  simpl. destruct Hin as [[= -> ->]|Hin]; [|by apply IH].
  apply add_commands_grow. unfold add_command.
  rewrite lookup_insert_eq. simpl. apply union_subseteq_r.
Qed.

(** X17: the classes registered for a command pool their options. Whatever
    [cmdclass] maps, the option sets returned hold, for the name [global],
    every global option, and for the name of each command that an entry
    point loads or that [cmdclass] maps, every option of that class, all in
    normal form: a class of [cmdclass] adds to the options of a plugin of
    the same name and does not replace them. *)
Theorem valid_options_pool (env : Env) (d : dict) (w : World) :
  ∃ valid_options w',
    _valid_command_options env (VDict d) w = (Ok valid_options, w')
    ∧ _normalise_cmd_options (global_options env)
      ⊆ default ∅ (valid_options !! "global")
    ∧ ∀ cmd cls, In (cmd, cls) (loaded_commands env) ∨ In (cmd, cls) d →
        _normalise_cmd_options (user_options_of cls)
        ⊆ default ∅ (valid_options !! cmd).
Proof.
  rewrite _valid_command_options_outcome.
  eexists _, _. split; [done|]. unfold known_options. split.
  - apply add_commands_grow. by rewrite lookup_singleton_eq.
  - intros cmd cls Hin. apply add_commands_pool. apply in_or_app. exact Hin.
Qed.

(** ** The options of the commands, copied *)

Lemma mbind_inv {A B} (m : M A) (k : A → M B) (w : World) (b : B) (w' : World) :
  mbind m k w = (Ok b, w') →
  ∃ a w1, m w = (Ok a, w1) ∧ k a w1 = (Ok b, w').
Proof.
  unfold mbind. destruct (m w) as [[a|e] w1]; [|done]. eauto.
Qed.

Lemma for_each_keeps {S X : Type} (I : S → S → Prop) (step : S → X → M S)
    (xs : list X) :
  (∀ s, I s s) → (∀ s1 s2 s3, I s1 s2 → I s2 s3 → I s1 s3) →
  (∀ s x w s' w', step s x w = (Ok s', w') → I s s') →
  ∀ s w s' w', for_each step xs s w = (Ok s', w') → I s s'.
Proof.
  intros Hrefl Htrans Hstep. induction xs as [|x xs IH]; intros s w s' w' H.
  - injection H as <- _. apply Hrefl.
  - cbn [for_each] in H. apply mbind_inv in H as (s1 & w1 & H1 & H).
    exact (Htrans _ _ _ (Hstep _ _ _ _ _ H1) (IH _ _ _ _ H)).
Qed.

Lemma for_each_In {S X : Type} (I : S → S → Prop) (step : S → X → M S)
    (xs : list X) (x : X) :
  (∀ s, I s s) → (∀ s1 s2 s3, I s1 s2 → I s2 s3 → I s1 s3) →
  (∀ s x w s' w', step s x w = (Ok s', w') → I s s') →
  In x xs →
  ∀ s w s' w', for_each step xs s w = (Ok s', w') →
    ∃ s0 w0 s1 w1, step s0 x w0 = (Ok s1, w1) ∧ I s1 s'.
Proof.
  intros Hrefl Htrans Hstep. induction xs as [|y xs IH]; [done|].
  intros Hin s w s' w' H.
  cbn [for_each] in H. apply mbind_inv in H as (s1 & w1 & H1 & H).
  destruct Hin as [->|Hin].
  - exists s, w, s1, w1. split; [done|].
    by apply (for_each_keeps I step xs Hrefl Htrans Hstep s1 w1 s' w').
  - exact (IH Hin s1 w1 s' w' H).
Qed.

Lemma keeps_options_refl dist : keeps_options dist dist.
Proof. by repeat split. Qed.

Lemma keeps_options_trans dist1 dist2 dist3 :
  keeps_options dist1 dist2 → keeps_options dist2 dist3 →
  keeps_options dist1 dist3.
Proof.
  intros (Hm & Ha & Hc & Hr) (Hm' & Ha' & Hc' & Hr').
  repeat split; [congruence|congruence|auto|auto].
Qed.

Lemma keeps_options_setdefault dist c :
  keeps_options dist
    (with_command_options
       (λ cmd_opts, match cmd_opts !! c with
                    | Some _ => cmd_opts
                    | None => <[c := ∅]> cmd_opts
                    end) dist).
Proof.
  repeat split.
  - intros c' H. simpl. destruct (command_options dist !! c) eqn:Hc; [done|].
    destruct (decide (c = c')) as [<-|Hne].
    + rewrite lookup_insert_eq. eauto.
    + by rewrite lookup_insert_ne.
  - intros c' k'. by rewrite recorded_setdefault.
Qed.

Lemma keeps_options_setitem dist c k v :
  keeps_options dist
    (with_command_options
       (λ cmd_opts, <[c := <[k := v]> (default ∅ (cmd_opts !! c))]> cmd_opts)
       dist).
Proof.
  repeat split.
  - intros c' H. simpl. destruct (decide (c = c')) as [<-|Hne].
    + rewrite lookup_insert_eq. eauto.
    + by rewrite lookup_insert_ne.
  - intros c' k' H. rewrite recorded_setitem.
    destruct (String.eqb c c' && String.eqb k k'); eauto.
Qed.

Lemma _copy_option_keeps cmd valid dist key val w dist' w' :
  _copy_option cmd valid dist key val w = (Ok dist', w') →
  keeps_options dist dist'.
Proof.
  unfold _copy_option.
  destruct (bool_decide _); intros H.
  - injection H as <- _. apply keeps_options_setitem.
  - unfold mbind, warn, mret in H. injection H as <- _.
    apply keeps_options_setitem.
Qed.

Lemma _copy_command_keeps valid_options dist cmd config w dist' w' :
  _copy_command valid_options dist cmd config w = (Ok dist', w') →
  keeps_options dist dist'
  ∧ is_Some (command_options dist' !! json_compatible_key cmd).
Proof.
  unfold _copy_command. set (c := json_compatible_key cmd).
  set (dist0 := with_command_options _ dist).
  destruct config as [| | | | | |options| |]; try done.
  intros H.
  assert (Hk : keeps_options dist0 dist').
  { revert H. apply for_each_keeps.
    - apply keeps_options_refl.
    - apply keeps_options_trans.
    - intros s x w0 s' w0'. apply _copy_option_keeps. }
  split.
  - eapply keeps_options_trans; [apply keeps_options_setdefault|exact Hk].
  - destruct Hk as (_ & _ & Hc & _). apply Hc. unfold dist0. simpl.
    destruct (command_options dist !! c) eqn:E; [by rewrite E|].
    rewrite lookup_insert_eq. eauto.
Qed.

Lemma _copy_commands_keep valid_options commands dist w dist' w' :
  for_each (λ dist kv, _copy_command valid_options dist (fst kv) (snd kv))
           commands dist w = (Ok dist', w') →
  keeps_options dist dist'
  ∧ ∀ cmd config, In (cmd, config) commands →
      is_Some (command_options dist' !! json_compatible_key cmd).
Proof.
  intros H.
  assert (Hstep : ∀ s (x : string * value) w0 s' w0',
            _copy_command valid_options s (fst x) (snd x) w0 = (Ok s', w0') →
            keeps_options s s').
  { intros s x w0 s' w0' Hx. by apply _copy_command_keeps in Hx as [Hx _]. }
  split.
  - revert H. apply for_each_keeps;
      [apply keeps_options_refl|apply keeps_options_trans|exact Hstep].
  - intros cmd config Hin.
    destruct (for_each_In keeps_options _ commands (cmd, config)
                keeps_options_refl keeps_options_trans Hstep Hin _ _ _ _ H)
      as (s0 & w0 & s1 & w1 & H1 & (_ & _ & Hc & _)).
    apply Hc. by apply _copy_command_keeps in H1 as [_ H1].
Qed.

Lemma ref_get_same_world r k dflt w a w1 :
  ref_get r k dflt w = (Ok a, w1) → w1 = w.
Proof.
  intros H. destruct (ref_get_pure r k dflt w) as (res & Hres & _).
  rewrite Hres in H. by injection H as _ <-.
Qed.

Lemma ref_get_shared path k dflt w v :
  doc_get (path ++ [k]) (document w) = Some v →
  ref_get (Shared path) k dflt w = (Ok (Shared (path ++ [k])), w).
Proof.
  intros H. unfold ref_get.
  rewrite (mbind_ok _ _ w (content (Shared path) w) w) by apply deref_content.
  unfold content. rewrite doc_get_app in H.
  destruct (doc_get path (document w)) as [[| | | | | |s| |]|]; try done.
  simpl. by rewrite H.
Qed.

Lemma _copy_command_options_loop env pyproject dist w dist' w' :
  _copy_command_options env pyproject dist w = (Ok dist', w') →
  ∃ valid_options w0 distutils commands,
    document w0 = document w
    ∧ (let! tool_table := ref_get pyproject "tool" (VDict []) in
       ref_get tool_table "distutils" (VDict []))%world w0 = (Ok distutils, w0)
    ∧ content distutils w0 = VDict commands
    ∧ for_each (λ dist kv, _copy_command valid_options dist (fst kv) (snd kv))
               commands dist w0 = (Ok dist', w').
Proof.
  unfold _copy_command_options. intros H.
  apply mbind_inv in H as (tool & w1 & H1 & H).
  apply ref_get_same_world in H1 as ->.
  apply mbind_inv in H as (setuptools & w1 & H1 & H).
  apply ref_get_same_world in H1 as ->.
  apply mbind_inv in H as (cmdclass & w1 & H1 & H).
  apply ref_get_same_world in H1 as ->.
  apply mbind_inv in H as (classes & w1 & H1 & H).
  rewrite deref_content in H1. injection H1 as <- <-.
  apply mbind_inv in H as (valid_options & w1 & H1 & H).
  rewrite _valid_command_options_outcome in H1.
  destruct (content cmdclass w) as [| | | | | |d| |]; try done.
  injection H1 as _ <-.
  set (w0 := with_log w _) in *.
  apply mbind_inv in H as (tool2 & w1 & H1 & H).
  pose proof (ref_get_same_world _ _ _ _ _ _ H1) as ->.
  apply mbind_inv in H as (distutils & w1 & H2 & H).
  pose proof (ref_get_same_world _ _ _ _ _ _ H2) as ->.
  apply mbind_inv in H as (commands & w1 & H3 & H).
  rewrite deref_content in H3. injection H3 as <- <-.
  destruct (content distutils w0) as [| | | | | |commands| |] eqn:Hc; try done.
  exists valid_options, w0, distutils, commands.
  split; [done|]. split; [|done].
  by rewrite (mbind_ok _ _ _ _ _ H1).
Qed.

(** X18: [_copy_command_options] only adds options. For a distribution
    that still has its own command options (no field named
    [command_options], [metadata] or like a finalize hook has been assigned
    to it): when the function returns, the metadata and the other
    attributes of the distribution are as before, every command that had
    options still has them, every option that was recorded is still
    recorded (with its old value or a new one), and the document and the
    working directory are as before. *)
Theorem copy_command_options_only_adds (env : Env) (pyproject : ref)
    (dist dist' : Distribution) (w w' : World) :
  intact dist = true →
  _copy_command_options env pyproject dist w = (Ok dist', w') →
  metadata dist' = metadata dist
  ∧ attributes dist' = attributes dist
  ∧ (∀ c, is_Some (command_options dist !! c) →
          is_Some (command_options dist' !! c))
  ∧ (∀ c k, is_Some (recorded dist c k) → is_Some (recorded dist' c k))
  ∧ document w' = document w ∧ cwd w' = cwd w.
Proof.
  intros _ H.
  assert (Hw : respects (λ w w', document w' = document w ∧ cwd w' = cwd w)
                 (λ _, True) (_copy_command_options env pyproject dist)).
  { apply respects__copy_command_options; try done.
    intros w1 w2 w3 [? ?] [? ?]. split; congruence. }
  destruct (Hw w) as [[Hdoc Hcwd] _]. rewrite H in Hdoc, Hcwd.
  apply _copy_command_options_loop in H
    as (valid_options & w0 & distutils & commands & _ & _ & _ & H).
  apply _copy_commands_keep in H as [(Hm & Ha & Hc & Hr) _].
  done.
Qed.

Lemma copy_command_options_only_adds_witness :
  let run := _copy_command_options Sample.env (Shared []) Sample.fresh
               (Sample.world bogus_flag_document) in
  ∃ dist', run.1 = Ok dist'
    ∧ metadata dist' = metadata Sample.fresh
    ∧ attributes dist' = attributes Sample.fresh
    ∧ (∀ c, is_Some (command_options Sample.fresh !! c) →
            is_Some (command_options dist' !! c))
    ∧ (∀ c k, is_Some (recorded Sample.fresh c k) → is_Some (recorded dist' c k))
    ∧ document run.2 = document (Sample.world bogus_flag_document)
    ∧ cwd run.2 = cwd (Sample.world bogus_flag_document).
Proof.
  eexists. split; [vm_compute; reflexivity|].
  eapply (copy_command_options_only_adds Sample.env (Shared []) Sample.fresh _
            (Sample.world bogus_flag_document)).
  - reflexivity.
  - vm_compute. reflexivity.
Defined.

(** X19: every command that [tool.distutils] names is registered in the
    command options of the distribution under its normal form, also a
    command whose table has no option. *)
Theorem every_command_is_registered (env : Env) (dist dist' : Distribution)
    (w w' : World) (commands : dict) :
  doc_get ["tool"; "distutils"] (document w) = Some (VDict commands) →
  _copy_command_options env (Shared []) dist w = (Ok dist', w') →
  ∀ cmd config, In (cmd, config) commands →
    is_Some (command_options dist' !! json_compatible_key cmd).
Proof.
  intros Hdoc H.
  apply _copy_command_options_loop in H
    as (valid_options & w0 & distutils & commands0 & Hw0 & Hget & Hc & H).
  rewrite <- Hw0 in Hdoc.
  assert (Htool : is_Some (doc_get ["tool"] (document w0))).
  { change ["tool"; "distutils"] with (["tool"] ++ ["distutils"]) in Hdoc.
    rewrite doc_get_app in Hdoc.
    destruct (doc_get ["tool"] (document w0)); [eauto|done]. }
  destruct Htool as [t Ht].
  rewrite (mbind_ok _ _ _ _ _ (ref_get_shared [] "tool" _ w0 t Ht)) in Hget.
  rewrite (ref_get_shared ["tool"] "distutils" _ w0 _ Hdoc) in Hget.
  injection Hget as <-. unfold content in Hc. simpl app in Hc.
  rewrite Hdoc in Hc. injection Hc as <-.
  by apply _copy_commands_keep in H as [_ H].
Qed.

Lemma every_command_is_registered_witness :
  is_Some (command_options
             (with_command_options <["build_ext" := ∅]> Sample.fresh)
           !! json_compatible_key "Build-Ext").
Proof.
  apply (every_command_is_registered Sample.env Sample.fresh _
           (Sample.world empty_command_document)
           (_copy_command_options Sample.env (Shared []) Sample.fresh
              (Sample.world empty_command_document)).2
           [("Build-Ext", VDict [])] ltac:(reflexivity)
           ltac:(vm_compute; reflexivity) "Build-Ext" (VDict [])).
  simpl. tauto.
Defined.

(** X20: without a [distutils] table of the tool there is nothing to copy:
    when [_copy_command_options] returns, the distribution is the one it
    was given. *)
Theorem no_distutils_table_no_options (env : Env) (dist dist' : Distribution)
    (w w' : World) :
  doc_get ["tool"; "distutils"] (document w) = None →
  _copy_command_options env (Shared []) dist w = (Ok dist', w') →
  dist' = dist.
Proof.
  intros Hdoc H.
  apply _copy_command_options_loop in H
    as (valid_options & w0 & distutils & commands & Hw0 & Hget & Hc & H).
  rewrite <- Hw0 in Hdoc.
  assert (Hd : distutils = Local (VDict [])).
  { apply mbind_inv in Hget as (tool & w1 & H1 & H2).
    pose proof (ref_get_same_world _ _ _ _ _ _ H1) as ->.
    unfold ref_get in H1.
    rewrite (mbind_ok _ _ w0 (content (Shared []) w0) w0) in H1
      by apply deref_content.
    unfold content in H1. simpl in H1.
    destruct (document w0) as [| | | | | |d| |] eqn:Hd; try done.
    unfold ref_get in H2.
    rewrite (mbind_ok _ _ w0 (content tool w0) w0) in H2 by apply deref_content.
    destruct (Dict.get "tool" d) as [t|] eqn:Ht.
    - injection H1 as <-. unfold content in H2. simpl in H2.
      rewrite Hd in H2. simpl in H2. rewrite Ht in H2. simpl in H2.
      destruct t as [| | | | | |t| |]; try done.
      simpl in Hdoc. rewrite Ht in Hdoc.
      destruct (Dict.get "distutils" t) as [x|]; [done|].
      by injection H2 as <-.
    - injection H1 as <-. simpl in H2. by injection H2 as <-. }
  subst distutils. simpl in Hc. injection Hc as <-.
  simpl in H. by injection H as <- _.
Qed.

Lemma no_distutils_table_no_options_witness :
  Sample.fresh = Sample.fresh.
Proof.
  apply (no_distutils_table_no_options Sample.env Sample.fresh Sample.fresh
           (Sample.world dynamic_version_document)
           (_copy_command_options Sample.env (Shared []) Sample.fresh
              (Sample.world dynamic_version_document)).2).
  - reflexivity.
  - vm_compute. reflexivity.
Defined.

(** ** The caller's document, where the pass does not write *)





(** ** The tool table, applied last *)








(** ** The log of the pass *)

Lemma ref_get_default (r : ref) (k : string) (w : World) (a : ref) (w1 : World)
    (path : list string) :
  content r w = default (VDict []) (doc_get path (document w)) →
  ref_get r k (VDict []) w = (Ok a, w1) →
  w1 = w
  ∧ content a w = default (VDict []) (doc_get (path ++ [k]) (document w)).
Proof.
  intros Hc H. split; [by eapply ref_get_same_world|].
  unfold ref_get in H.
  rewrite (mbind_ok _ _ w (content r w) w) in H by apply deref_content.
  destruct (content r w) as [| | | | | |s| |] eqn:Hr; try done.
  assert (Hk : default (VDict []) (doc_get (path ++ [k]) (document w))
               = default (VDict []) (Dict.get k s)).
  { rewrite doc_get_app.
    destruct (doc_get path (document w)) as [v0|]; simpl in Hc.
    - by subst v0.
    - by injection Hc as ->. }
  rewrite Hk. destruct (Dict.get k s) as [v|] eqn:Hg.
  - injection H as <- _. simpl. destruct r as [x|p]; [done|].
    unfold content in *. cbn [child]. rewrite doc_get_app.
    destruct (doc_get p (document w)) as [v0|]; [|done].
    simpl in Hr. subst v0. by rewrite Hg.
  - by injection H as <- _.
Qed.

Lemma _copy_commands_tables valid_options commands dist w dist' w' :
  for_each (λ dist kv, _copy_command valid_options dist (fst kv) (snd kv))
           commands dist w = (Ok dist', w') →
  ∃ table, commands = commands_value table.
Proof.
  revert dist w. induction commands as [|[cmd config] commands IH]; intros dist w H.
  - by exists [].
  - cbn [for_each] in H. apply mbind_inv in H as (dist1 & w1 & H1 & H).
    destruct (IH _ _ H) as [table ->].
    unfold _copy_command in H1. cbn [fst snd] in H1.
    destruct config as [| | | | | |options| |]; try done.
    by exists ((cmd, options) :: table).
Qed.

Lemma _copy_command_options_log env dist w dist' w' :
  _copy_command_options env (Shared []) dist w = (Ok dist', w') →
  ∃ d table,
    default (VDict []) (doc_get ["tool"; "setuptools"; "cmdclass"] (document w))
    = VDict d
    ∧ default (VDict []) (doc_get ["tool"; "distutils"] (document w))
      = VDict (commands_value table)
    ∧ w' = with_log w (log w ++ load_warnings env
                         ++ option_warnings (known_options env d) table).
Proof.
  unfold _copy_command_options. intros H.
  assert (Hroot : ∀ w0, content (Shared []) w0
                        = default (VDict []) (doc_get [] (document w0))) by done.
  apply mbind_inv in H as (tool & w1 & H1 & H).
  apply (ref_get_default _ _ _ _ _ [] (Hroot w)) in H1 as [-> Htool].
  apply mbind_inv in H as (setuptools & w1 & H1 & H).
  apply (ref_get_default _ _ _ _ _ _ Htool) in H1 as [-> Hsetuptools].
  apply mbind_inv in H as (cmdclass & w1 & H1 & H).
  apply (ref_get_default _ _ _ _ _ _ Hsetuptools) in H1 as [-> Hcmdclass].
  apply mbind_inv in H as (classes & w1 & H1 & H).
  rewrite deref_content in H1. injection H1 as <- <-.
  apply mbind_inv in H as (valid_options & w1 & H1 & H).
  rewrite _valid_command_options_outcome in H1.
  destruct (content cmdclass w) as [| | | | | |d| |]; try done.
  injection H1 as <- <-.
  set (w0 := with_log w (log w ++ load_warnings env)) in *.
  apply mbind_inv in H as (tool2 & w1 & H1 & H).
  apply (ref_get_default _ _ _ _ _ [] (Hroot w0)) in H1 as [-> Htool2].
  apply mbind_inv in H as (distutils & w1 & H1 & H).
  apply (ref_get_default _ _ _ _ _ _ Htool2) in H1 as [-> Hdistutils].
  apply mbind_inv in H as (commands & w1 & H1 & H).
  rewrite deref_content in H1. injection H1 as <- <-.
  destruct (content distutils w0) as [| | | | | |commands| |]; try done.
  destruct (_copy_commands_tables _ _ _ _ _ _ H) as [table ->].
  destruct (_copy_commands_loop (known_options env d) table dist w0)
    as (dist'' & Hloop & _).
  rewrite Hloop in H. injection H as _ <-.
  exists d, table. split; [symmetry; exact Hcmdclass|].
  split; [symmetry; exact Hdistutils|].
  unfold w0, with_log. simpl. by rewrite <- app_assoc.
Qed.

Lemma apply_finalize_log env dist root_dir w :
  log (apply_finalize env dist root_dir w).2 = log w.
Proof.
  unfold apply_finalize, mbind, getcwd, chdir at 1.
  destruct (os_chdir env (cwd w) root_dir) as [dir|]; [|done].
  unfold try_finally, run_hook. simpl.
  destruct (_finalize_requires env dist dir) as [[d1|e] dir1]; simpl.
  - destruct (_finalize_license_files env d1 dir1) as [r dir2]. unfold chdir. simpl.
    by destruct (os_chdir env dir2 (cwd w)).
  - unfold chdir. simpl. by destruct (os_chdir env dir1 (cwd w)).
Qed.

(** X23: the log of a pass that returns. [apply] adds to the log one
    warning for each plugin that fails to load, then one warning for each
    option of [tool.distutils] that is not known for its command, in the
    order of the document, and nothing else; the known options are those
    of the global options, the plugins that load and the classes of
    [tool.setuptools.cmdclass]. *)
Theorem apply_logs_exactly (env : Env) (dist dist' : Distribution)
    (root_dir : string) (w w' : World) :
  apply env dist root_dir w = (Ok dist', w') →
  ∃ d table,
    default (VDict []) (doc_get ["tool"; "setuptools"; "cmdclass"] (document w'))
    = VDict d
    ∧ default (VDict []) (doc_get ["tool"; "distutils"] (document w'))
      = VDict (commands_value table)
    ∧ log w' = log w ++ load_warnings env
                ++ option_warnings (known_options env d) table.
Proof.
  unfold apply. intros H.
  apply mbind_inv in H as (dist1 & w1 & H1 & H).
  apply mbind_inv in H as (dist2 & w2 & H2 & H).
  assert (Hlog1 : log w1 = log w).
  { assert (Hr : respects (λ w w', log w' = log w) (λ _, True)
                   (apply_tables env dist (Shared []) root_dir)).
    { apply respects_apply_tables; try done. intros; congruence. }
    destruct (Hr w) as [Hl _]. by rewrite H1 in Hl. }
  destruct (_copy_command_options_log _ _ _ _ _ H2) as (d & table & Hd & Ht & Hw2).
  pose proof (apply_finalize_document env dist2 root_dir w2) as Hdoc.
  pose proof (apply_finalize_log env dist2 root_dir w2) as Hlog.
  rewrite H in Hdoc, Hlog. simpl in Hdoc, Hlog.
  exists d, table. rewrite Hdoc, Hlog, Hw2. simpl. by rewrite Hlog1.
Qed.

Lemma apply_logs_exactly_witness :
  let w' := (apply Sample.env Sample.fresh "/p"
               (Sample.world bogus_flag_document)).2 in
  ∃ d table,
    default (VDict []) (doc_get ["tool"; "setuptools"; "cmdclass"] (document w'))
    = VDict d
    ∧ default (VDict []) (doc_get ["tool"; "distutils"] (document w'))
      = VDict (commands_value table)
    ∧ log w' = log (Sample.world bogus_flag_document) ++ load_warnings Sample.env
                ++ option_warnings (known_options Sample.env d) table.
Proof.
  eapply (apply_logs_exactly Sample.env Sample.fresh _ "/p"
            (Sample.world bogus_flag_document)).
  vm_compute. reflexivity.
Defined.

(** ** Scripts against groups of entry points *)

Lemma loop_outcome_last_moved (values : string → value) (items : list string) :
  ∀ g project groups' project',
  loop_outcome values items (VDict g) project = Some (groups', project') →
  ∃ g', groups' = VDict g'
    ∧ ∀ group, Dict.get group g'
               = match last_moved values group items with
                 | Some v => Some v
                 | None => Dict.get group g
                 end.
Proof.
  induction items as [|key items IH]; intros g project groups' project' H.
  - injection H as <- _. by exists g.
  - cbn [loop_outcome] in H. cbn [last_moved].
    destruct (renaming_str (json_compatible_key key)) as [Hr|[renamed Hr]];
      rewrite Hr in *.
    + destruct (IH _ _ _ _ H) as (g' & -> & Hg'). exists g'. split; [done|].
      intros group. rewrite Hg'. by destruct (last_moved values group items).
    + destruct (truthy (values key)) eqn:Ht.
      * destruct (str_in key project); [|done].
        destruct (IH _ _ _ _ H) as (g' & -> & Hg'). exists g'. split; [done|].
        intros group. rewrite Hg', get_set. cbn [andb].
        destruct (last_moved values group items); [done|].
        by destruct (String.eqb renamed group).
      * destruct (IH _ _ _ _ H) as (g' & -> & Hg'). exists g'. split; [done|].
        intros group. rewrite Hg'. by destruct (last_moved values group items).
Qed.

(** X24: scripts win over the groups of the same name, in the caller's own
    table. When the project has a table of entry points and
    [_unify_entry_points] returns, that table of the caller's document
    holds, under [console_scripts] and [gui_scripts], the last non-empty
    table of scripts of the project that [renaming] maps there, in place
    of what the group held; its other groups are as before. *)
Theorem scripts_replace_the_groups (env : Env) (ks : list string) (w : World)
    (table : list (string * ref)) (w' : World) (a : string) (g : dict) :
  _unify_entry_points env (copy_of ks) w = (Ok table, w') →
  alias ks = Some a →
  lookup w a = VDict g →
  ∃ g', lookup w' a = VDict g'
    ∧ ∀ group, Dict.get group g'
               = match last_moved (lookup w) group (unify_items ks) with
                 | Some v => Some v
                 | None => Dict.get group g
                 end.
Proof.
  intros Hrun Ha Hg.
  pose proof (unify_at env ks w) as H.
  destruct (unify_outcome env (lookup w) ks) as [[groups table0]|] eqn:Hout.
  2:{ destruct H as [x Hx]. rewrite Hrun in Hx. discriminate. }
  rewrite Hrun in H. injection H as _ ->.
  destruct (unify_outcome_loop env _ _ _ _ Hout) as (project & Hloop & _).
  rewrite Ha, Hg in Hloop.
  destruct (loop_outcome_last_moved _ _ _ _ _ _ Hloop) as (g' & -> & Hg').
  exists g'. split; [|done].
  unfold entry_points_ref. rewrite Ha. unfold lookup, write. cbn [document].
  rewrite doc_get_set_same; [done|].
  unfold lookup in Hg.
  destruct (doc_get ["project"; a] (document w)); [eauto|done].
Qed.

Lemma scripts_replace_the_groups_witness :
  let w := Sample.world console_scripts_document in
  let ks := ["name"; "entry-points"; "scripts"] in
  ∃ g', lookup (_unify_entry_points Sample.env (copy_of ks) w).2 "entry-points"
        = VDict g'
    ∧ ∀ group, Dict.get group g'
               = match last_moved (lookup w) group (unify_items ks) with
                 | Some v => Some v
                 | None => Dict.get group
                             [("console_scripts", VDict [("old", VStr "m:old")]);
                              ("pytest11", VDict [("plug", VStr "m.plug")])]
                 end.
Proof.
  eapply (scripts_replace_the_groups Sample.env
            ["name"; "entry-points"; "scripts"]
            (Sample.world console_scripts_document) _ _ "entry-points").
  - vm_compute. reflexivity.
  - reflexivity.
  - reflexivity.
Defined.

(** ** The fields of each translator *)









(** ** The known options are in normal form *)

Lemma _normalise_cmd_option_key_fixed (name : string) :
  _normalise_cmd_option_key (_normalise_cmd_option_key name)
  = _normalise_cmd_option_key name.
Proof.
  unfold _normalise_cmd_option_key.
  rewrite json_compatible_key_chars at 1.
  rewrite map_chars_fixed; [apply strip_strip|].
  unfold PyStr.strip. apply all_chars_lstrip, all_chars_rstrip.
  rewrite json_compatible_key_chars. apply all_chars_map_chars.
  intros c. apply Ascii.eqb_eq, normal_char_normal.
Qed.

Lemma _normalise_cmd_options_normal (desc : list string) (o : string) :
  o ∈ _normalise_cmd_options desc → _normalise_cmd_option_key o = o.
Proof.
  unfold _normalise_cmd_options. rewrite elem_of_list_to_set, list_elem_of_In.
  intros Hin. apply in_map_iff in Hin as (x & <- & _).
  apply _normalise_cmd_option_key_fixed.
Qed.

Lemma add_command_normal (valid_options : gmap string (gset string))
    (cmd : string) (cls : value) :
  (∀ c opts o, valid_options !! c = Some opts → o ∈ opts →
               _normalise_cmd_option_key o = o) →
  ∀ c opts o, add_command valid_options cmd cls !! c = Some opts → o ∈ opts →
              _normalise_cmd_option_key o = o.
Proof.
  intros Hinv c opts o. unfold add_command.
  destruct (decide (cmd = c)) as [->|Hne].
  - rewrite lookup_insert_eq. intros [= <-]. rewrite elem_of_union.
    intros [Ho|Ho]; [|by eapply _normalise_cmd_options_normal].
    destruct (valid_options !! c) as [old|] eqn:Hc; simpl in Ho.
    + by apply (Hinv c old).
    + by apply elem_of_empty in Ho.
  - rewrite lookup_insert_ne by done. apply Hinv.
Qed.

Lemma add_commands_normal (l : dict) (valid_options : gmap string (gset string)) :
  (∀ c opts o, valid_options !! c = Some opts → o ∈ opts →
               _normalise_cmd_option_key o = o) →
  ∀ c opts o,
    fold_left (λ acc kv, add_command acc (fst kv) (snd kv)) l valid_options !! c
    = Some opts →
    o ∈ opts → _normalise_cmd_option_key o = o.
Proof.
  revert valid_options. induction l as [|[cmd cls] l IH]; intros vo Hinv; [done|].
  simpl. apply IH. by apply add_command_normal.
Qed.

(** X26: every option name in the sets that [_valid_command_options]
    returns is in normal form: normalising it again gives the same name.
    So no set holds a name that begins or ends with an underscore or an
    equals sign, or that has a hyphen or a capital letter. *)
Theorem known_options_are_normal (env : Env) (cmdclass : value) (w w' : World)
    (valid_options : gmap string (gset string)) (cmd : string)
    (opts : gset string) (o : string) :
  _valid_command_options env cmdclass w = (Ok valid_options, w') →
  valid_options !! cmd = Some opts → o ∈ opts →
  _normalise_cmd_option_key o = o.
Proof.
  rewrite _valid_command_options_outcome.
  destruct cmdclass as [| | | | | |d| |]; try done.
  intros [= <- _]. unfold known_options. apply add_commands_normal.
  intros c opts0 o0 Hc. apply lookup_singleton_Some in Hc as [<- <-].
  apply _normalise_cmd_options_normal.
Qed.

Lemma known_options_are_normal_witness :
  _normalise_cmd_option_key "dry_run" = "dry_run".
Proof.
  apply (known_options_are_normal Sample.env (VDict [])
           (Sample.world one_author_document)
           (_valid_command_options Sample.env (VDict [])
              (Sample.world one_author_document)).2
           (known_options Sample.env []) "global"
           (_normalise_cmd_options (global_options Sample.env)) "dry_run").
  - reflexivity.
  - vm_compute. reflexivity.
  - apply (bool_decide_unpack _). vm_compute. reflexivity.
Defined.
